(** * gcutils: the retry combinator and the Pub/Sub layer

    A shallow embedding of [src/core/helper.ts] ([createError], [retry]),
    [src/pubsub/base.ts] ([getPubSubLoggerPayload],
    [setupSubscriptionWithHandlers]) and [src/pubsub/index.ts]
    ([Publisher], [Subscriber], [PubSubService.createTopic]).

    Conventions of the embedding.
    - An asynchronous call is run to completion: [await f()] is the call of
      [f], whose outcome is either a resolved value or a rejection.
    - Effectful code lives in the monad [M E U]: it threads the state [U] of
      the caller's world and writes the calls it makes, in order, to a trace
      of events [E].
    - Callbacks of the caller may fail: the retried action and the message
      handler resolve or reject, the JSON message handler may also throw
      before it hands back a promise, and the error handler returns or
      throws.  [shouldRetry] is a predicate; [ack], [nack] and the logger
      are procedures that return.
    - A JavaScript number used as a counter or a bound is an integer of [Z];
      a reference to an object is modelled either by the value itself, when
      the object is never mutated, or by a location of a store, when it is. *)

From Stdlib Require Import ZArith Lia Ascii String.
From stdpp Require Import base option strings gmap list pretty.

Open Scope Z_scope.

#[local] Set Warnings "-register-all".

(** ** JavaScript values and [Error] objects *)

Module JS.

(** The classes of [Error] the code tells apart with [instanceof]:
    [RetryError] and its deprecated subclass [RxJsRetryError]
    ([src/core/excepts.ts]), and the transport's [StatusError], which
    carries a status code, a detail string and a metadata blob. *)
Inductive err_kind : Type :=
| KError
| KRetryError
| KRxJsRetryError
| KStatusError (code : Z) (details : string) (metadata : list (string * string)).

Inductive value : Type :=
| VUndefined
| VNull
| VBool (b : bool)
| VNum (n : Z)
| VStr (s : string)
| VErr (e : error)
with error : Type :=
| Err (kind : err_kind) (message : string) (cause : value).

Definition err_kind_of (e : error) : err_kind := let 'Err k _ _ := e in k.
Definition err_message (e : error) : string := let 'Err _ m _ := e in m.
Definition err_cause (e : error) : value := let 'Err _ _ c := e in c.

(** [v instanceof Error] *)
Definition instanceof_Error (v : value) : bool :=
  match v with VErr _ => true | _ => false end.

(** [v instanceof RetryError]: the class and its subclass. *)
Definition instanceof_RetryError (v : value) : bool :=
  match v with
  | VErr (Err KRetryError _ _) | VErr (Err KRxJsRetryError _ _) => true
  | _ => false
  end.

(** [v === undefined] *)
Definition is_undefined (v : value) : bool :=
  match v with VUndefined => true | _ => false end.

Definition err_name (k : err_kind) : string :=
  match k with
  | KError => "Error"
  | KRetryError => "RetryError"
  | KRxJsRetryError => "RxJsRetryError"
  | KStatusError _ _ _ => "Error"
  end.

(** *** Numbers as strings

    [VNum n] is the Number nearest to the integer [n].  Its string is the
    shortest decimal that reads back as that Number (ECMAScript,
    Number::toString): the digits of [n] up to 53 bits, rounded digits
    above, exponent form from [1e21] on. *)

(** The Number nearest to a positive integer: 53 significant bits, ties to
    even. *)
Definition nearest_Number (x : Z) : Z :=
  let e := Z.log2 x - 52 in
  if e <=? 0 then x
  else
    let m := Z.shiftr x e in
    let rest := x - Z.shiftl m e in
    let half := Z.shiftl 1 (e - 1) in
    let m := if (half <? rest) || ((rest =? half) && Z.odd m) then m + 1 else m in
    Z.shiftl m e.

(** Whether the decimal [v] reads back as the Number [x], for [x] of more
    than 53 bits: [v] lies between the midpoints to the neighbours of [x],
    the midpoints included when the significand of [x] is even.  All
    quantities are scaled by 4. *)
Definition reads_back (x v : Z) : bool :=
  let e := Z.log2 x - 52 in
  let m := Z.shiftr x e in
  let above := Z.shiftl 1 e in
  let below := if m =? Z.shiftl 1 52 then Z.shiftl 1 (e - 1) else above in
  let low := 4 * x - 2 * below in
  let high := 4 * x + 2 * above in
  if Z.even m then (low <=? 4 * v) && (4 * v <=? high)
  else (low <? 4 * v) && (4 * v <? high).

(** The shortest decimal [s * 10 ^ (d - k)] that reads back as [x], the
    closest to [x] among those of its length, for [x] of [d] digits. *)
Fixpoint shortest (fuel : nat) (x d k : Z) : Z * Z :=
  match fuel with
  | O => (x, d)
  | S fuel' =>
      let unit := 10 ^ (d - k) in
      let lo := x / unit in
      let hi := lo + 1 in
      let ok_lo := reads_back x (lo * unit) in
      let ok_hi := reads_back x (hi * unit) in
      let dist_lo := x - lo * unit in
      let dist_hi := hi * unit - x in
      let pick_lo := (dist_lo <? dist_hi) || ((dist_lo =? dist_hi) && Z.even lo) in
      if ok_lo && (negb ok_hi || pick_lo) then (lo, k)
      else if ok_hi then (hi, k)
      else shortest fuel' x d (k + 1)
  end.

(** [Number::toString(x)] for a positive integer Number [x]: its digits
    when it has at most 53 bits; otherwise the digits of the shortest
    decimal, followed by zeros up to 21 digits and in exponent form
    beyond.  A shortest decimal [10 ^ k * 10 ^ (d - k)] is [1 * 10 ^ d]. *)
Definition positive_to_string (x : Z) : string :=
  if Z.log2 x <? 53 then pretty x
  else if Z.shiftl 1 1024 <=? x then "Infinity"
  else
    let d := Z.of_nat (String.length (pretty x)) in
    let '(s, k) := shortest (Z.to_nat d) x d 1 in
    let '(s, k, n) := if s =? 10 ^ k then (1, 1, d + 1) else (s, k, d) in
    let ds := pretty s in
    if n <=? 21 then ds +:+ String.concat "" (replicate (Z.to_nat (n - k)) "0")
    else
      match ds with
      | String c EmptyString => String c ("e+" +:+ pretty (n - 1))
      | String c rest => String c ("." +:+ rest +:+ "e+" +:+ pretty (n - 1))
      | EmptyString => ""
      end.

(** [`${n}`] for the Number that the integer [n] denotes. *)
Definition number_to_string (n : Z) : string :=
  match n with
  | 0 => "0"
  | Zpos _ => positive_to_string (nearest_Number n)
  | Zneg _ => "-" +:+ positive_to_string (nearest_Number (- n))
  end.

(** The string a template literal [`${v}`] produces; for an [Error], its
    name, followed by its message when it has one. *)
Definition to_string (v : value) : string :=
  match v with
  | VUndefined => "undefined"
  | VNull => "null"
  | VBool true => "true"
  | VBool false => "false"
  | VNum n => number_to_string n
  | VStr s => s
  | VErr (Err k m _) =>
      if bool_decide (m = "") then err_name k else err_name k +:+ ": " +:+ m
  end.

(** [s.endsWith(':')] *)
Fixpoint ends_with_colon (s : string) : bool :=
  match s with
  | EmptyString => false
  | String c EmptyString => bool_decide (c = ":"%char)
  | String _ rest => ends_with_colon rest
  end.

(** The outcome of awaiting a promise. *)
Inductive outcome : Type :=
| Resolved (v : value)
| Rejected (v : value).

(** How a function call completes. *)
Inductive completion : Type :=
| Returned (v : value)
| Thrown (v : value).

(** How the call of a function typed [(...) => Promise<T>] completes: it
    hands back a promise, which settles, or it throws before it has one to
    hand back (which an [async] function never does). *)
Inductive promised : Type :=
| Promise (o : outcome)
| ThrownSync (v : value).

End JS.
Export JS.

(** ** The monad of effectful code: state of the world, trace of calls *)

Definition M (E U A : Type) : Type := U -> A * U * list E.

Global Instance M_ret {E U} : MRet (M E U) := fun A (a : A) u => (a, u, []).

Global Instance M_bind {E U} : MBind (M E U) :=
  fun A B (k : A -> M E U B) (m : M E U A) u =>
    let '(a, u1, t1) := m u in
    let '(b, u2, t2) := k a u1 in
    (b, u2, t1 ++ t2).

(** [emit e] records one call made by the code. *)
Definition emit {E U} (e : E) : M E U unit := fun u => (tt, u, [e]).

(** [modify f] lets a procedure of the caller change the world. *)
Definition modify {E U} (f : U -> U) : M E U unit := fun u => (tt, f u, []).

(** [callback f] is a call of a function of the caller, which may change
    the world and gives an answer. *)
Definition callback {E U A} (f : U -> A * U) : M E U A :=
  fun u => let '(a, u') := f u in (a, u', []).

Definition result_of {A U E} (r : A * U * list E) : A := r.1.1.
Definition world_of {A U E} (r : A * U * list E) : U := r.1.2.
Definition trace_of {A U E} (r : A * U * list E) : list E := r.2.

(** ** [src/core/helper.ts] *)

Module Helper.

(** [createError(message, error?)].  An absent [error] is [undefined]. *)
Definition createError (message : value) (error : value) : JS.error :=
  match message with
  | VStr msg =>
      match error with
      | VUndefined => Err KError msg VUndefined
      | _ =>
          if ends_with_colon msg then
            match error with
            | VErr e => Err KError (msg +:+ " " +:+ err_message e) (VErr e)
            | _ => Err KError (msg +:+ " " +:+ to_string error) VUndefined
            end
          else Err KError msg error
      end
  | VErr e => e
  | _ => Err KError ("Unknown error " +:+ to_string message) VUndefined
  end.

(** [IRetryOptions<T>] *)
Record IRetryOptions : Type := {
  waitFor : Z;
  maxRetry : Z;
  retryOnUndefined : bool;
  retryOnAllErrors : bool;
  shouldRetry : option (value -> bool);
}.

(** [Partial<IRetryOptions<T>>]: every field may be missing. *)
Record PartialRetryOptions : Type := {
  p_waitFor : option Z;
  p_maxRetry : option Z;
  p_retryOnUndefined : option bool;
  p_retryOnAllErrors : option bool;
  p_shouldRetry : option (value -> bool);
}.

(** The default argument [options = {}]. *)
Definition no_options : PartialRetryOptions :=
  {| p_waitFor := None; p_maxRetry := None; p_retryOnUndefined := None;
     p_retryOnAllErrors := None; p_shouldRetry := None |}.

(** [const opt = { waitFor: options.waitFor ?? 100, ... }] *)
Definition resolve_options (options : PartialRetryOptions) : IRetryOptions :=
  {| waitFor := default 100 (p_waitFor options);
     maxRetry := default 3 (p_maxRetry options);
     retryOnUndefined := default true (p_retryOnUndefined options);
     retryOnAllErrors := default true (p_retryOnAllErrors options);
     shouldRetry := p_shouldRetry options |}.

(** The [logger.debug] lines of [retry], by their place in the code. *)
Inductive debug_line : Type :=
| LogRetryNumber (counter waitFor : Z)
| LogShouldRetryResult
| LogResultUndefined
| LogShouldRetryError
| LogErrorCaught (err : value)
| LogRetryErrorCaught (message : string)
| LogMaxRetries (maxRetry : Z).

(** What [retry] does to the outside, in order. *)
Inductive event : Type :=
| EvDebug (l : debug_line)
| EvDelay (ms : Z)
| EvInvoke (o : outcome)
| EvShouldRetry (arg : value) (answer : bool).

(** How one pass through the loop body ends. *)
Inductive step : Type :=
| Continue
| Return (v : value)
| Throw (v : value).

(** How the [try] block ends: by a [continue] or a [return], or by an
    exception, which the [catch] clause receives. *)
Inductive tried : Type :=
| Done (s : step)
| Raised (err : value).

Section Retry.
Context {U : Type}.

(** [action : () => Promise<T>]: one invocation changes the world and
    resolves or rejects. *)
Variable action : U -> outcome * U.

Variable opt : IRetryOptions.

Definition invoke : M event U outcome :=
  fun u => let '(o, u') := action u in (o, u', [EvInvoke o]).

(** [opt.shouldRetry(v)], recorded. *)
Definition consult (f : value -> bool) (v : value) : M event U bool :=
  emit (EvShouldRetry v (f v)) ;; mret (f v).

(** Lines 141-161, the body of [try]. *)
Definition try_block : M event U tried :=
  o ← invoke;
  match o with
  | Rejected err => mret (Raised err)
  | Resolved result =>
      retry_it ← match shouldRetry opt with
                  | Some f => consult f result
                  | None => mret false
                  end ;
      if retry_it : bool then
        emit (EvDebug LogShouldRetryResult) ;; mret (Done Continue)
      else if instanceof_Error result then
        mret (Raised result)
      else if is_undefined result && retryOnUndefined opt then
        emit (EvDebug LogResultUndefined) ;; mret (Done Continue)
      else
        mret (Done (Return result))
  end.

(** Lines 162-180, the [catch (err)] clause. *)
Definition catch_clause (err : value) : M event U step :=
  retry_it ← match shouldRetry opt with
              | Some f =>
                  if instanceof_Error err then consult f err else mret false
              | None => mret false
              end ;
  if retry_it : bool then
    emit (EvDebug LogShouldRetryError) ;; mret Continue
  else if retryOnAllErrors opt then
    emit (EvDebug (LogErrorCaught err)) ;; mret Continue
  else if instanceof_RetryError err then
    emit (EvDebug (LogRetryErrorCaught
                     (match err with VErr e => err_message e | _ => "" end))) ;;
    mret Continue
  else
    mret (Throw err).

(** One attempt: the [try] statement as a whole. *)
Definition attempt : M event U step :=
  t ← try_block;
  match t with
  | Done s => mret s
  | Raised err => catch_clause err
  end.

(** Lines 130-183: [while (counter < opt.maxRetry) { ... }] and what
    follows it.  The loop is unrolled at most [fuel] times; [None] is the
    answer of a loop that was cut short. *)
Fixpoint retry_loop (fuel : nat) (counter : Z) : M event U (option completion) :=
  match fuel with
  | O => mret None
  | S fuel' =>
      if counter <? maxRetry opt then
        let counter := counter + 1 in
        (if 1 <? counter then
           emit (EvDebug (LogRetryNumber counter (waitFor opt))) ;;
           emit (EvDelay (waitFor opt))
         else mret tt) ;;
        s ← attempt;
        match s with
        | Continue => retry_loop fuel' counter
        | Return v => mret (Some (Returned v))
        | Throw v => mret (Some (Thrown v))
        end
      else
        emit (EvDebug (LogMaxRetries (maxRetry opt))) ;;
        mret (Some (Returned VUndefined))
  end.

End Retry.

(** [retry(action, options)].  The counter starts at 0 and grows by one per
    pass, so [maxRetry] passes and one last test of the guard are all the
    loop can make. *)
Definition retry {U : Type} (action : U -> outcome * U)
    (options : PartialRetryOptions) : M event U (option completion) :=
  let opt := resolve_options options in
  retry_loop action opt (S (Z.to_nat (maxRetry opt))) 0.

(** Observations on a trace. *)
Definition is_invoke (e : event) : bool :=
  match e with EvInvoke _ => true | _ => false end.

Definition invocations (t : list event) : nat :=
  length (filter (fun e => is_invoke e = true) t).

Definition first_invocation (t : list event) : option outcome :=
  head (omap (fun e => match e with EvInvoke o => Some o | _ => None end) t).

Definition delays (t : list event) : list Z :=
  omap (fun e => match e with EvDelay ms => Some ms | _ => None end) t.

Definition consulted (t : list event) : list value :=
  omap (fun e => match e with EvShouldRetry v _ => Some v | _ => None end) t.

(** The same action, except that an [Error] it would resolve to is raised. *)
Definition raising {U : Type} (action : U -> outcome * U) : U -> outcome * U :=
  fun u =>
    match action u with
    | (Resolved (VErr e), u') => (Rejected (VErr e), u')
    | r => r
    end.

End Helper.

(** ** [src/pubsub/base.ts] *)

Module PubSub.

(** JSON data: what [publishJson] serialises and [JSON.parse] yields. *)
Inductive json : Type :=
| JNull
| JBool (b : bool)
| JNum (n : Z)
| JStr (s : string)
| JArr (items : list json)
| JObj (fields : list (string * json)).

(** [backoffSettings] of a gax retry setting. *)
Record BackoffSettings : Type := {
  initialRetryDelayMillis : Z;
  retryDelayMultiplier : Z;
  maxRetryDelayMillis : Z;
  initialRpcTimeoutMillis : Z;
  rpcTimeoutMultiplier : Z;
  maxRpcTimeoutMillis : Z;
  totalTimeoutMillis : Z;
}.

Record RetrySettings : Type := {
  retryCodes : list Z;
  backoffSettings : BackoffSettings;
}.

(** [CallOptions]: the [retry] field, and the other fields as a map. *)
Record CallOptions : Type := {
  co_retry : option RetrySettings;
  co_other : gmap string string;
}.

(** [PublishOptions]: the [gaxOpts] field, and the other fields as a map. *)
Record PublishOptions : Type := {
  gaxOpts : option CallOptions;
  po_other : gmap string string;
}.

(** A [Topic] handle: its full name and the publish options it holds. *)
Record Topic : Type := {
  topic_name : string;
  topic_options : option PublishOptions;
}.

(** A field typed [Topic | string]. *)
Inductive topic_ref : Type :=
| TopicByName (name : string)
| TopicObject (t : Topic).

(** A [Subscription] handle. *)
Record Subscription : Type := {
  sub_name : string;
  sub_topic : option topic_ref;
}.

(** A delivered [Message]. *)
Record Message : Type := {
  msg_id : string;
  msg_data : string;
  msg_attributes : option (gmap string string);
  msg_ackId : string;
}.

(** [IPubSubLoggerPayloadRequest] *)
Record IPubSubLoggerPayloadRequest : Type := {
  req_topic : option topic_ref;
  req_subscription : option Subscription;
  req_message : option Message;
  req_messageId : option string;
  req_error : option JS.error;
}.

(** [IPubSubLoggerPayload]: an absent key is [None]. *)
Record IPubSubLoggerPayload : Type := {
  subscriptionName : option string;
  topicName : option string;
  messageId : option string;
  messageContentType : option string;
  messageAckId : option string;
  grpcErrorStatus : option Z;
  grpcErrorMetadata : option json;
  grpcErrorDetails : option string;
}.

(** [if (s)] on a value that is a string or is missing: the empty string
    and [undefined] are falsy. *)
Definition truthy (s : option string) : option string :=
  match s with
  | Some s' => if bool_decide (s' = "") then None else Some s'
  | None => None
  end.

(** [typeof t === 'string' ? t : t?.name] *)
Definition name_of_topic_ref (t : option topic_ref) : option string :=
  match t with
  | Some (TopicByName s) => Some s
  | Some (TopicObject o) => Some (topic_name o)
  | None => None
  end.

(** [if (input.topic)]: an object is truthy, a string is when not empty. *)
Definition truthy_topic (t : option topic_ref) : bool :=
  match t with
  | Some (TopicByName s) => negb (bool_decide (s = ""))
  | Some (TopicObject _) => true
  | None => false
  end.

(** The [Metadata] of a [StatusError] is given by the entries added to
    it, in order; its internal map holds each key once, in the order the
    keys came, with the list of the values added under it.
    [metadata.add(key, value)] on that map: *)
Fixpoint metadata_add (repr : list (string * list string)) (key value : string)
    : list (string * list string) :=
  match repr with
  | [] => [(key, [value])]
  | (k, values) :: rest =>
      if bool_decide (k = key) then (k, values ++ [value]) :: rest
      else (k, values) :: metadata_add rest key value
  end.

Definition internalRepr (md : list (string * string)) : list (string * list string) :=
  foldl (fun repr kv => metadata_add repr kv.1 kv.2) [] md.

(** [error.metadata.toJSON()]: each key with the list of its values. *)
Definition metadata_toJSON (md : list (string * string)) : json :=
  JObj ((fun entry => (entry.1, JArr (JStr <$> entry.2))) <$> internalRepr md).

(** [JSON.parse(safeStringify(j))] on JSON data is a copy of [j]. *)
Definition json_clone (j : json) : json := j.

(** [getPubSubLoggerPayload(input)], lines 55-95.  The result is
    [KV.of('PubSubInfo', payload)]: the key and the payload. *)
Definition getPubSubLoggerPayload (input : IPubSubLoggerPayloadRequest)
    : string * IPubSubLoggerPayload :=
  let sub := req_subscription input in
  let subscriptionName := sub_name <$> sub in
  let topicName :=
    match sub with
    | Some s => truthy (name_of_topic_ref (sub_topic s))
    | None =>
        if truthy_topic (req_topic input)
        then name_of_topic_ref (req_topic input)
        else None
    end in
  let '(messageId, messageContentType, messageAckId) :=
    match req_message input with
    | Some m =>
        (Some (msg_id m),
         truthy (msg_attributes m ≫= fun a => a !! "contentType"),
         truthy (Some (msg_ackId m)))
    | None => (truthy (req_messageId input), None, None)
    end in
  let '(grpcErrorStatus, grpcErrorMetadata, grpcErrorDetails) :=
    match req_error input with
    | Some (Err (KStatusError code details metadata) _ _) =>
        (Some code, Some (json_clone (metadata_toJSON metadata)), Some details)
    | _ => (None, None, None)
    end in
  ("PubSubInfo",
   {| subscriptionName := subscriptionName;
      topicName := topicName;
      messageId := messageId;
      messageContentType := messageContentType;
      messageAckId := messageAckId;
      grpcErrorStatus := grpcErrorStatus;
      grpcErrorMetadata := grpcErrorMetadata;
      grpcErrorDetails := grpcErrorDetails |}).

(** [instanceof StatusError] *)
Definition instanceof_StatusError (e : option JS.error) : bool :=
  match e with
  | Some (Err (KStatusError _ _ _) _ _) => true
  | _ => false
  end.

(** The default retry settings of [generateCallOptions], lines 112-143. *)
Definition publishRetrySetting : RetrySettings :=
  {| retryCodes := [10; 1; 4; 13; 8; 14; 2];
     backoffSettings :=
       {| initialRetryDelayMillis := 100;
          retryDelayMultiplier := 4;
          maxRetryDelayMillis := 60000;
          initialRpcTimeoutMillis := 60000;
          rpcTimeoutMultiplier := 1;
          maxRpcTimeoutMillis := 60000;
          totalTimeoutMillis := 600000 |} |}.

(** [generateCallOptions(options?)], lines 104-151. *)
Definition generateCallOptions (options : option CallOptions) : CallOptions :=
  let result := default {| co_retry := None; co_other := ∅ |} options in
  match co_retry result with
  | Some _ => result
  | None => {| co_retry := Some publishRetrySetting; co_other := co_other result |}
  end.

Inductive log_level : Type := LDebug | LInfo | LWarn | LError.

(** The answer of a call to the transport: a value or a failure. *)
Inductive tresult (A : Type) : Type :=
| TOk (a : A)
| TFail (err : value).
Global Arguments TOk {A} a.
Global Arguments TFail {A} err.

(** The message the transport's [publishMessage] is handed, with the
    attributes as they are at the time of the call. *)
Record PubsubMessage : Type := {
  pm_json : option json;
  pm_data : option string;
  pm_attributes : option (gmap string string);
  pm_orderingKey : option string;
}.

(** The calls the Pub/Sub layer makes: to the logger, to a message, to the
    error handler, and to the transport. *)
Inductive event : Type :=
| EvLog (level : log_level) (text : string) (err : option JS.error)
    (payload : option (string * IPubSubLoggerPayload))
| EvAck (m : Message)
| EvNack (m : Message)
| EvErrHandler (err : JS.error) (m : option Message)
| EvOn (sub : Subscription) (name : string)
| EvRemoveAllListeners (sub : Subscription)
| EvSubExists (sub : Subscription)
| EvSubClose (sub : Subscription)
| EvSubDelete (sub : Subscription)
| EvTopicExists (t : Topic)
| EvCreateTopic (name : string) (co : CallOptions)
| EvPublish (t : Topic) (m : PubsubMessage).

Definition is_log (e : event) : bool :=
  match e with EvLog _ _ _ _ => true | _ => false end.
Definition is_createTopic (e : event) : bool :=
  match e with EvCreateTopic _ _ => true | _ => false end.

(** The calls to the transport: everything but the logger, the error
    handler and the acknowledgements. *)
Definition is_transport (e : event) : bool :=
  match e with
  | EvLog _ _ _ _ | EvErrHandler _ _ | EvAck _ | EvNack _ => false
  | _ => true
  end.

Definition count (p : event -> bool) (t : list event) : nat :=
  length (filter (fun e => p e = true) t).

(** A listener registered with [subscription.on(name, listener)]. *)
Inductive listener (U : Type) : Type :=
| OnMessage (cb : Message -> M event U outcome)
| OnError (cb : JS.error -> M event U completion)
| OnDebug (cb : json -> M event U unit)
| OnClose (cb : M event U unit).
Global Arguments OnMessage {U} cb.
Global Arguments OnError {U} cb.
Global Arguments OnDebug {U} cb.
Global Arguments OnClose {U} cb.

(** The part of [@google-cloud/pubsub] the code calls, over a world [U]:
    the methods of [Subscription], [Topic] and [PubSub], and the two
    functions of the JavaScript runtime the code relies on. *)
Class Transport (U : Type) : Type := {
  sub_exists : Subscription -> U -> tresult bool * U;
  sub_close : Subscription -> U -> tresult unit * U;
  sub_delete : Subscription -> U -> tresult unit * U;
  sub_removeAllListeners : Subscription -> U -> U;
  sub_on : Subscription -> string -> listener U -> U -> U;
  topic_exists : Topic -> U -> tresult bool * U;
  topic_publishMessage : Topic -> PubsubMessage -> U -> tresult string * U;
  client_createTopic : string -> CallOptions -> U -> tresult Topic * U;
  client_formatName : string -> string;
  JSON_parse : string -> json + JS.error;
  JSON_stringify : json -> string;
}.

Section Base.
Context {U : Type} `{Transport U}.

Definition logger (level : log_level) (text : string) (err : option JS.error)
    (payload : option (string * IPubSubLoggerPayload)) : M event U unit :=
  emit (EvLog level text err payload).

(** A call to the transport, recorded. *)
Definition transport {A} (e : event) (call : U -> A * U) : M event U A :=
  fun u => let '(a, u') := call u in (a, u', [e]).

Definition removeAllListeners (sub : Subscription) : M event U unit :=
  transport (EvRemoveAllListeners sub) (fun u => (tt, sub_removeAllListeners sub u)).

Definition on (sub : Subscription) (name : string) (l : listener U) : M event U unit :=
  transport (EvOn sub name) (fun u => (tt, sub_on sub name l u)).

(** The handler used when the caller gives none, lines 194-222.  The
    payload is an object, hence truthy: the last branch is dead. *)
Definition default_errorHandler (subscription : Subscription)
    (error : JS.error) (message : option Message) : M event U unit :=
  let loggerPayload :=
    getPubSubLoggerPayload
      {| req_topic := None; req_subscription := Some subscription;
         req_message := message; req_messageId := None;
         req_error := Some error |} in
  match message with
  | Some _ =>
      logger LError ("[PubSubService] " +:+ err_message error)
        (Some error) (Some loggerPayload)
  | None =>
      logger LError ("[PubSubService] subscribe error: " +:+ err_message error)
        (Some error) (Some loggerPayload)
  end.

(** [const errHandler = errorHandler ?? (...)], and a call of it: the
    handler of the caller returns or throws, the default one returns. *)
Definition errHandler (subscription : Subscription)
    (errorHandler : option (JS.error -> option Message -> U -> completion * U))
    (error : JS.error) (message : option Message) : M event U completion :=
  emit (EvErrHandler error message) ;;
  match errorHandler with
  | Some h => callback (h error message)
  | None =>
      default_errorHandler subscription error message ;;
      mret (Returned VUndefined)
  end.

(** The listener of ['message'], lines 224-237, an [async] function: what
    [errHandler] throws in the [catch] clause rejects its promise. *)
Definition on_message (subscription : Subscription)
    (messageHandler : Message -> M event U outcome)
    (errorHandler : option (JS.error -> option Message -> U -> completion * U))
    (message : Message) : M event U outcome :=
  o ← messageHandler message;
  match o with
  | Resolved _ =>
      emit (EvAck message) ;;
      mret (Resolved VUndefined)
  | Rejected err =>
      emit (EvNack message) ;;
      let error := Helper.createError (VStr "messageHandler Error:") err in
      c ← errHandler subscription errorHandler error (Some message);
      match c with
      | Returned _ => mret (Resolved VUndefined)
      | Thrown v => mret (Rejected v)
      end
  end.

(** [setupSubscriptionWithHandlers], lines 187-253. *)
Definition setupSubscriptionWithHandlers (subscription : Subscription)
    (messageHandler : Message -> M event U outcome)
    (errorHandler : option (JS.error -> option Message -> U -> completion * U))
    : M event U unit :=
  on subscription "message"
    (OnMessage (on_message subscription messageHandler errorHandler)) ;;
  on subscription "error"
    (OnError (fun error => errHandler subscription errorHandler error None)) ;;
  on subscription "debug"
    (OnDebug (fun msg =>
       logger LDebug
         ("[PubSubService] debug for subscription: " +:+ sub_name subscription
            +:+ ": " +:+ JSON_stringify msg) None None)) ;;
  on subscription "close"
    (OnClose (
       logger LInfo
         ("[PubSubService] subscription closed: " +:+ sub_name subscription)
         None None ;;
       removeAllListeners subscription)).

(** A user handler [(message) => Promise<void>]: it changes the world and
    resolves or rejects.  The code awaits its call inside a [try], where a
    throw and a rejection are the same. *)
Definition user_handler (h : Message -> U -> outcome * U)
    : Message -> M event U outcome :=
  fun m u => let '(o, u') := h m u in (o, u', []).

End Base.

End PubSub.

(** ** [src/pubsub/index.ts] *)

Module Pstore.
Import PubSub.

Definition CONTENT_TYPE_JSON : string := "application/json".

(** *** Objects the caller shares with [Publisher]

    [publishJson] writes through the reference it is given, so the
    [TPublishOptions] objects and their [attributes] objects live in a
    store, and a reference is a location of it. *)
Definition loc : Type := positive.

(** [TPublishOptions = Omit<MessageOptions, 'data' | 'json'>] *)
Record TPublishOptions : Type := {
  attributes : option loc;
  orderingKey : option string;
}.

Record store : Type := {
  options_objs : gmap loc TPublishOptions;
  attributes_objs : gmap loc (gmap string string);
}.

(** [MessageOptions]: a fresh object per call; its [attributes] is a
    reference. *)
Record MessageOptions : Type := {
  mo_json : option json;
  mo_data : option string;
  mo_attributes : option loc;
  mo_orderingKey : option string;
}.

Section Heap.
Context {U : Type}.

(** Code that does not touch the store, run in a world that has one. *)
Definition lift {A} (m : M event U A) : M event (store * U) A :=
  fun w => let '(a, u', t) := m w.2 in (a, (w.1, u'), t).

(** [{}] as a new attributes object. *)
Definition new_attributes (a : gmap string string) : M event (store * U) loc :=
  fun w =>
    let l := fresh (dom (attributes_objs w.1)) in
    (l, ({| options_objs := options_objs w.1;
            attributes_objs := <[l := a]> (attributes_objs w.1) |}, w.2), []).

Definition new_options (o : TPublishOptions) : M event (store * U) loc :=
  fun w =>
    let l := fresh (dom (options_objs w.1)) in
    (l, ({| options_objs := <[l := o]> (options_objs w.1);
            attributes_objs := attributes_objs w.1 |}, w.2), []).

Definition read_options (s : store) (l : loc) : TPublishOptions :=
  default {| attributes := None; orderingKey := None |} (options_objs s !! l).

Definition read_attributes (s : store) (l : loc) : gmap string string :=
  default ∅ (attributes_objs s !! l).

Definition get_options (l : loc) : M event (store * U) TPublishOptions :=
  fun w => (read_options w.1 l, w, []).

Definition get_attributes (l : loc) : M event (store * U) (gmap string string) :=
  fun w => (read_attributes w.1 l, w, []).

(** [options.attributes = la] *)
Definition set_options_attributes (l : loc) (la : loc) : M event (store * U) unit :=
  modify (fun w =>
    ({| options_objs :=
          <[l := {| attributes := Some la;
                    orderingKey := orderingKey (read_options w.1 l) |}]>
            (options_objs w.1);
        attributes_objs := attributes_objs w.1 |}, w.2)).

(** [attributes[key] = v] *)
Definition set_attribute (la : loc) (key v : string) : M event (store * U) unit :=
  modify (fun w =>
    ({| options_objs := options_objs w.1;
        attributes_objs :=
          <[la := <[key := v]> (read_attributes w.1 la)]> (attributes_objs w.1) |},
     w.2)).

(** The message as the transport sees it when it is called. *)
Definition snapshot (s : store) (m : MessageOptions) : PubsubMessage :=
  {| pm_json := mo_json m;
     pm_data := mo_data m;
     pm_attributes := read_attributes s <$> mo_attributes m;
     pm_orderingKey := mo_orderingKey m |}.

End Heap.

Section Publisher.
Context {U : Type} `{Transport U}.

(** [class Publisher]: the private field [#topic]. *)
Record Publisher : Type := { topic : Topic }.

(** [this.#topic.publishMessage(opt)] *)
Definition topic_publish (t : Topic) (opt : MessageOptions)
    : M event (store * U) (tresult string) :=
  fun w =>
    let m := snapshot w.1 opt in
    let '(r, u') := topic_publishMessage t m w.2 in
    (r, (w.1, u'), [EvPublish t m]).

(** [Publisher.publishJson(data, options?)], lines 61-82. *)
Definition publishJson (p : Publisher) (data : json) (options : option loc)
    : M event (store * U) (tresult string) :=
  options ← match options with
            | Some l => mret l
            | None =>
                la ← new_attributes ∅;
                new_options {| attributes := Some la; orderingKey := None |}
            end;
  o ← get_options options;
  la ← match attributes o with
       | Some la => mret la
       | None =>
           la ← new_attributes ∅;
           set_options_attributes options la ;;
           mret la
       end;
  set_attribute la "contentType" CONTENT_TYPE_JSON ;;
  o ← get_options options;
  let opt := {| mo_json := Some data;
                mo_data := None;
                mo_attributes := attributes o;
                mo_orderingKey := orderingKey o |} in
  topic_publish (topic p) opt.

(** [Publisher.publishMessage(data)], lines 90-101. *)
Definition publishMessage (p : Publisher) (data : MessageOptions)
    : M event (store * U) (tresult string) :=
  r ← topic_publish (topic p) data;
  match r with
  | TFail e => mret (TFail e)
  | TOk messageId =>
      attrs ← match mo_attributes data with
              | Some la => a ← get_attributes la; mret (Some a)
              | None => mret None
              end;
      match truthy (attrs ≫= fun a => a !! "contentType") with
      | Some contentType =>
          lift (logger LInfo
                  ("Published messageId " +:+ messageId +:+ " with contentType "
                     +:+ contentType) None None)
      | None =>
          lift (logger LInfo ("Published messageId " +:+ messageId) None None)
      end ;;
      mret (TOk messageId)
  end.

End Publisher.

Section Subscriber.
Context {U : Type} `{Transport U}.

(** [class Subscriber]: the private fields [#subscriberClosed] and
    [#subscription].  A method returns how it completed and the object
    as it left it. *)
Record Subscriber : Type := {
  subscriberClosed : bool;
  subscription : Subscription;
}.

(** [new Subscriber(subscription)] *)
Definition new_Subscriber (sub : Subscription) : Subscriber :=
  {| subscriberClosed := false; subscription := sub |}.

Definition new_Error (message : string) : value :=
  VErr (Err KError message VUndefined).

(** [Subscriber.listen(messageHandler, errorHandler?)], lines 129-150. *)
Definition listen
    (messageHandler : Message -> M event U outcome)
    (errorHandler : option (JS.error -> option Message -> U -> completion * U))
    (this : Subscriber) : M event U (completion * Subscriber) :=
  if subscriberClosed this then
    mret (Thrown (new_Error ("Subscriber " +:+ sub_name (subscription this)
                               +:+ " is closed")), this)
  else
    r ← transport (EvSubExists (subscription this))
          (sub_exists (subscription this));
    match r with
    | TFail e => mret (Thrown e, this)
    | TOk false =>
        mret (Thrown (new_Error ("Subscriber " +:+ sub_name (subscription this)
                                   +:+ " does not exist")), this)
    | TOk true =>
        setupSubscriptionWithHandlers (subscription this)
          messageHandler errorHandler ;;
        mret (Returned VUndefined, this)
    end.

(** The [jsonMessageHandler] closure of [listenJson], lines 163-189.  The
    [try] encloses [JSON.parse] and the call of the handler, whose promise
    is handed back as it is: the [catch] clause sees a failure of
    [JSON.parse] and what the handler throws before it hands back a
    promise, not a rejection of that promise. *)
Definition jsonMessageHandler (this : Subscriber)
    (messageHandler : json -> Message -> U -> promised * U)
    (message : Message) : M event U outcome :=
  let text := msg_data message in
  let contentType := msg_attributes message ≫= fun a => a !! "contentType" in
  let loggerPayload :=
    getPubSubLoggerPayload
      {| req_topic := None; req_subscription := Some (subscription this);
         req_message := Some message; req_messageId := None;
         req_error := None |} in
  (if bool_decide (contentType = Some CONTENT_TYPE_JSON) then mret tt
   else logger LWarn ("Message id " +:+ msg_id message
                        +:+ " does not have json contentType")
          None (Some loggerPayload)) ;;
  let catch (err : value) : M event U outcome :=
    let error :=
      Helper.createError
        (VStr ("Failed to parse JSON from messageId " +:+ msg_id message +:+ ":"))
        err in
    logger LError (err_message error) (Some error) (Some loggerPayload) ;;
    mret (Rejected (VErr error)) in
  match JSON_parse text with
  | inl j =>
      r ← callback (messageHandler j message);
      match r with
      | Promise o => mret o
      | ThrownSync err => catch err
      end
  | inr err => catch (VErr err)
  end.

(** [Subscriber.listenJson(messageHandler, errorHandler?)], lines 159-191. *)
Definition listenJson
    (messageHandler : json -> Message -> U -> promised * U)
    (errorHandler : option (JS.error -> option Message -> U -> completion * U))
    (this : Subscriber) : M event U (completion * Subscriber) :=
  listen (jsonMessageHandler this messageHandler) errorHandler this.

(** [Subscriber.close()], lines 197-201. *)
Definition close (this : Subscriber) : M event U (completion * Subscriber) :=
  removeAllListeners (subscription this) ;;
  r ← transport (EvSubClose (subscription this)) (sub_close (subscription this));
  match r with
  | TFail e => mret (Thrown e, this)
  | TOk _ =>
      mret (Returned VUndefined,
            {| subscriberClosed := true; subscription := subscription this |})
  end.

(** [Subscriber.delete()], lines 212-220. *)
Definition delete (this : Subscriber) : M event U (completion * Subscriber) :=
  closed ← (if negb (subscriberClosed this) then close this
            else mret (Returned VUndefined, this));
  match closed with
  | (Thrown e, this) => mret (Thrown e, this)
  | (Returned _, this) =>
      r ← transport (EvSubExists (subscription this))
            (sub_exists (subscription this));
      match r with
      | TFail e => mret (Thrown e, this)
      | TOk false => mret (Returned VUndefined, this)
      | TOk true =>
          r ← transport (EvSubDelete (subscription this))
                (sub_delete (subscription this));
          match r with
          | TFail e => mret (Thrown e, this)
          | TOk _ => mret (Returned VUndefined, this)
          end
      end
  end.

(** The calls a caller can make on a [Subscriber]. *)
Inductive call : Type :=
| CallListen (messageHandler : Message -> M event U outcome)
    (errorHandler : option (JS.error -> option Message -> U -> completion * U))
| CallListenJson (messageHandler : json -> Message -> U -> promised * U)
    (errorHandler : option (JS.error -> option Message -> U -> completion * U))
| CallClose
| CallDelete.

Definition perform (c : call) (this : Subscriber)
    : M event U (completion * Subscriber) :=
  match c with
  | CallListen mh eh => listen mh eh this
  | CallListenJson mh eh => listenJson mh eh this
  | CallClose => close this
  | CallDelete => delete this
  end.

(** A sequence of calls, one after the other, on the same object. *)
Fixpoint perform_all (cs : list call) (this : Subscriber) : M event U Subscriber :=
  match cs with
  | [] => mret this
  | c :: cs' =>
      r ← perform c this;
      perform_all cs' r.2
  end.

End Subscriber.

Section Service.
Context {U : Type} `{Transport U}.

(** [AbstractPubSub.getTopic(topicName, options?)], base.ts lines
    294-298: the call options are stored into [options], and the handle
    is the client's [topic(topicName, opt)]. *)
Definition with_gaxOpts (opt : PublishOptions) : PublishOptions :=
  {| gaxOpts := Some (generateCallOptions (gaxOpts opt));
     po_other := po_other opt |}.

Definition getTopic (topicName : string) (options : option PublishOptions) : Topic :=
  let opt := default {| gaxOpts := None; po_other := ∅ |} options in
  {| topic_name := client_formatName topicName;
     topic_options := Some (with_gaxOpts opt) |}.

(** [newTopic.setPublishOptions(options)] *)
Definition setPublishOptions (t : Topic) (options : PublishOptions) : Topic :=
  {| topic_name := topic_name t; topic_options := Some options |}.

(** [PubSubService.createTopic(topicName, options?)], lines 234-254.
    After [getTopic], the caller's [options] object holds the generated
    call options. *)
Definition createTopic (topicName : string) (options : option PublishOptions)
    : M event U (tresult Topic) :=
  let topic := getTopic topicName options in
  let options := with_gaxOpts <$> options in
  r ← transport (EvTopicExists topic) (topic_exists topic);
  match r with
  | TFail e => mret (TFail e)
  | TOk true =>
      logger LInfo ("[PubSubService] topic already exists: " +:+ topic_name topic)
        None None ;;
      mret (TOk topic)
  | TOk false =>
      let callOptions := generateCallOptions (options ≫= gaxOpts) in
      r ← transport (EvCreateTopic topicName callOptions)
            (client_createTopic topicName callOptions);
      match r with
      | TFail e => mret (TFail e)
      | TOk newTopic =>
          logger LInfo ("[PubSubService] new topic created: " +:+ topic_name newTopic)
            None None ;;
          mret (TOk (match options with
                     | Some o => setPublishOptions newTopic o
                     | None => newTopic
                     end))
      end
  end.

End Service.

End Pstore.

(** ** What one attempt of [retry] decides

    The decision of the loop body as a function of the outcome of the
    action, and the values it shows to [shouldRetry].  Lemma
    [attempt_cases] relates them to the code of [attempt]. *)

Module RetryDecision.
Import Helper.

Definition catch_decision (opt : IRetryOptions) (err : value) : step :=
  if match shouldRetry opt with
     | Some f => instanceof_Error err && f err
     | None => false
     end
     || retryOnAllErrors opt || instanceof_RetryError err
  then Continue else Throw err.

Definition decision (opt : IRetryOptions) (o : outcome) : step :=
  match o with
  | Rejected err => catch_decision opt err
  | Resolved result =>
      if match shouldRetry opt with Some f => f result | None => false end
      then Continue
      else if instanceof_Error result then catch_decision opt result
      else if is_undefined result && retryOnUndefined opt then Continue
      else Return result
  end.

Definition consults (opt : IRetryOptions) (o : outcome) : list value :=
  match shouldRetry opt with
  | None => []
  | Some f =>
      match o with
      | Rejected err => if instanceof_Error err then [err] else []
      | Resolved result =>
          result :: (if f result then []
                     else if instanceof_Error result then [result] else [])
      end
  end.

(** What the loop does before attempt number [counter]: it waits, except
    before the first. *)
Definition before_attempt (opt : IRetryOptions) (counter : Z) : list event :=
  if 1 <? counter
  then [EvDebug (LogRetryNumber counter (waitFor opt)); EvDelay (waitFor opt)]
  else [].

(** An action that raises whenever it is invoked. *)
Definition always_raises {U : Type} (action : U -> outcome * U) : Prop :=
  forall u, exists err, (action u).1 = Rejected err.

(** Two actions to run the code on: one that raises [err] at every
    invocation, one that plays a script of outcomes and then resolves to
    [undefined]. *)
Definition failing (err : value) : unit -> outcome * unit :=
  fun _ => (Rejected err, tt).

Definition scripted : list outcome -> outcome * list outcome :=
  fun s =>
    match s with
    | [] => (Resolved VUndefined, [])
    | o :: s' => (o, s')
    end.

Definition boom : JS.error := Err KError "boom" VUndefined.

(** [{ retryOnAllErrors: false }] *)
Definition only_RetryError : PartialRetryOptions :=
  {| p_waitFor := None; p_maxRetry := None; p_retryOnUndefined := None;
     p_retryOnAllErrors := Some false; p_shouldRetry := None |}.

(** [{ retryOnAllErrors: false, shouldRetry: () => true }] *)
Definition eager_shouldRetry : PartialRetryOptions :=
  {| p_waitFor := None; p_maxRetry := None; p_retryOnUndefined := None;
     p_retryOnAllErrors := Some false; p_shouldRetry := Some (fun _ => true) |}.

End RetryDecision.
Import RetryDecision.

(** ** Statements about the Pub/Sub layer: auxiliary definitions *)

Module PubSubSpec.
Import PubSub Pstore.






(** What the default error handler writes to the log for a failure on a
    message. *)
Definition default_log (subscription : Subscription) (error : JS.error)
    (m : Message) : event :=
  EvLog LError ("[PubSubService] " +:+ err_message error) (Some error)
    (Some (getPubSubLoggerPayload
             {| req_topic := None; req_subscription := Some subscription;
                req_message := Some m; req_messageId := None;
                req_error := Some error |})).


(** The error [listenJson] makes of what its [catch] clause received, and
    the line it logs then. *)
Definition json_error (m : Message) (err : value) : JS.error :=
  Helper.createError
    (VStr ("Failed to parse JSON from messageId " +:+ msg_id m +:+ ":")) err.

Definition json_failure_log (subscription : Subscription) (m : Message)
    (err : value) : event :=
  EvLog LError (err_message (json_error m err)) (Some (json_error m err))
    (Some (getPubSubLoggerPayload
             {| req_topic := None; req_subscription := Some subscription;
                req_message := Some m; req_messageId := None;
                req_error := None |})).


(** The error a closed [Subscriber] raises from [listen]. *)
Definition closed_error (this : Subscriber) : value :=
  new_Error ("Subscriber " +:+ sub_name (subscription this) +:+ " is closed").

(** What the transport is assumed to do for [createTopic]: a topic that was
    created, or was seen to exist, is seen to exist by the next probe of
    its name, and the handle of a created topic bears the name the client
    gives to handles of that topic. *)
Section Laws.
Context (U : Type) `{Transport U}.

Definition probe_after_create : Prop :=
  forall name co (u u' : U) h t,
    client_createTopic name co u = (TOk h, u') ->
    topic_name t = client_formatName name ->
    exists u'', topic_exists t u' = (TOk true, u'').

Definition probe_stable : Prop :=
  forall t t' (u u' : U),
    topic_exists t u = (TOk true, u') ->
    topic_name t' = topic_name t ->
    exists u'', topic_exists t' u' = (TOk true, u'').

Definition created_name : Prop :=
  forall name co (u u' : U) h,
    client_createTopic name co u = (TOk h, u') ->
    topic_name h = client_formatName name.
End Laws.

(** [publishJson] as the specification words it: the same preparation of
    [options], then a call of [Publisher.publishMessage]. *)
Definition publishJson_as_specified {U : Type} `{Transport U}
    (p : Publisher) (data : json) (options : option loc)
    : M event (store * U) (tresult string) :=
  options ← match options with
            | Some l => mret l
            | None =>
                la ← new_attributes ∅;
                new_options {| attributes := Some la; orderingKey := None |}
            end;
  o ← get_options options;
  la ← match attributes o with
       | Some la => mret la
       | None =>
           la ← new_attributes ∅;
           set_options_attributes options la ;;
           mret la
       end;
  set_attribute la "contentType" CONTENT_TYPE_JSON ;;
  o ← get_options options;
  publishMessage p {| mo_json := Some data;
                      mo_data := None;
                      mo_attributes := attributes o;
                      mo_orderingKey := orderingKey o |}.

End PubSubSpec.

(** ** A transport to run the code on

    A broker that holds the names of the topics and subscriptions that
    exist and numbers the messages it is handed. *)

Module Sim.
Import PubSub Pstore.

Record broker : Type := {
  b_topics : gset string;
  b_subs : gset string;
  b_seq : nat;
}.

Definition full_name (name : string) : string := "projects/p/topics/" +:+ name.

Definition already_exists : value :=
  VErr (Err (KStatusError 6 "ALREADY_EXISTS" []) "6 ALREADY_EXISTS" VUndefined).

Definition parse (text : string) : json + JS.error :=
  if bool_decide (text = "null") then inl JNull
  else if bool_decide (text = "true") then inl (JBool true)
  else if bool_decide (text = "1") then inl (JNum 1)
  else inr (Err KError "Unexpected token" VUndefined).

Global Instance sim : Transport broker := {|
  sub_exists s b := (TOk (bool_decide (sub_name s ∈ b_subs b)), b);
  sub_close s b := (TOk tt, b);
  sub_delete s b :=
    (TOk tt, {| b_topics := b_topics b; b_subs := b_subs b ∖ {[sub_name s]};
                b_seq := b_seq b |});
  sub_removeAllListeners s b := b;
  sub_on s name l b := b;
  topic_exists t b := (TOk (bool_decide (topic_name t ∈ b_topics b)), b);
  topic_publishMessage t m b :=
    (TOk (pretty (b_seq b)),
     {| b_topics := b_topics b; b_subs := b_subs b; b_seq := S (b_seq b) |});
  client_createTopic name co b :=
    if bool_decide (full_name name ∈ b_topics b) then (TFail already_exists, b)
    else (TOk {| topic_name := full_name name; topic_options := None |},
          {| b_topics := {[full_name name]} ∪ b_topics b; b_subs := b_subs b;
             b_seq := b_seq b |});
  client_formatName := full_name;
  JSON_parse := parse;
  JSON_stringify j := "{}";
|}.

Definition empty_broker : broker := {| b_topics := ∅; b_subs := ∅; b_seq := 0 |}.

Definition orders : Topic :=
  {| topic_name := full_name "orders"; topic_options := None |}.

Definition orders_worker : Subscription :=
  {| sub_name := "projects/p/subscriptions/orders-worker";
     sub_topic := Some (TopicObject orders) |}.

Definition live_broker : broker :=
  {| b_topics := {[full_name "orders"]};
     b_subs := {[sub_name orders_worker]}; b_seq := 0 |}.

Definition empty_store : store := {| options_objs := ∅; attributes_objs := ∅ |}.


Definition good_message : Message :=
  {| msg_id := "8"; msg_data := "1";
     msg_attributes := Some {[ "contentType" := "application/json" ]};
     msg_ackId := "ack-8" |}.

(** A handler that raises, an [async] one that succeeds, and one that
    throws before it hands back a promise. *)
Definition raising_handler (m : Message) (b : broker) : outcome * broker :=
  (Rejected (VErr (Err KError "Test error" VUndefined)), b).

Definition json_handler (j : json) (m : Message) (b : broker) : promised * broker :=
  (Promise (Resolved VUndefined), b).

Definition throwing_json_handler (j : json) (m : Message) (b : broker)
    : promised * broker :=
  (ThrownSync (VStr "not an order"), b).



End Sim.

(** ** [src/core/helper.ts]: [checkIfHostResolves] and [fetcher] *)

Module HelperMore.
Import Helper.

(** A [URL] object, by the two properties the code and [fetch] read. *)
Record URL : Type := {
  hostname : string;
  href : string;
}.

(** What [dns.resolve(hostname, 'A')] answers: the addresses, or a failure
    with the raised value and its [code] property. *)
Inductive dns_answer : Type :=
| DnsAddresses (addresses : list string)
| DnsFailure (code : option string) (err : value).

(** What [checkIfHostResolves] does to the outside: what its call of
    [retry] does, and its own line of [logger.error]. *)
Inductive host_event : Type :=
| HostRetry (e : event)
| HostLogError (text : string).

Section Host.
Context {U : Type}.

Variable resolve : string -> U -> dns_answer * U.

(** The action given to [retry], lines 68-81. *)
Definition dns_lookup (hostname : string) : U -> outcome * U :=
  fun u =>
    match resolve hostname u with
    | (DnsAddresses resp, u') =>
        (Resolved (VBool (bool_decide (0 < length resp)%nat)), u')
    | (DnsFailure code err, u') =>
        if bool_decide (code = Some "ENOTFOUND")
        then (Resolved (VBool false), u')
        else (Rejected err, u')
    end.

(** [const retryOptions = { waitFor: 10 }] *)
Definition retryOptions : PartialRetryOptions :=
  {| p_waitFor := Some 10; p_maxRetry := None; p_retryOnUndefined := None;
     p_retryOnAllErrors := None; p_shouldRetry := None |}.

(** [checkIfHostResolves(input)], lines 60-87.  [output ?? false] turns
    [undefined] and [null] into [false]. *)
Definition checkIfHostResolves (input : string + URL)
    : M host_event U (option completion) :=
  let hostname := match input with inl s => s | inr url => hostname url end in
  fun u =>
    let '(r, u', t) := retry (dns_lookup hostname) retryOptions u in
    match r with
    | Some (Returned output) =>
        (Some (Returned match output with
                        | VUndefined | VNull => VBool false
                        | _ => output
                        end),
         u', HostRetry <$> t)
    | Some (Thrown err) =>
        (Some (Thrown err), u',
         (HostRetry <$> t) ++
           [HostLogError ("[dnsResolve] Failed to resolve " +:+ hostname
                            +:+ ": " +:+ to_string err)])
    | None => (None, u', HostRetry <$> t)
    end.

(** The lookups made: the invocations of the action. *)
Definition lookups (t : list host_event) : nat :=
  invocations (omap (fun e => match e with HostRetry e' => Some e' | _ => None end) t).

End Host.

(** What [fetch(url, { headers })] answers: a rejection, or a response
    with [ok], [status] and the outcome of [text()]. *)
Inductive fetch_answer : Type :=
| FetchRejected (err : value)
| FetchResponse (ok : bool) (status : Z) (text : string + value).

(** The one call [fetcher] makes. *)
Inductive fetch_event : Type :=
| EvFetch (url : string + URL) (headers : gmap string string).

Section Fetcher.
Context {U : Type}.

Variable fetch : string + URL -> gmap string string -> U -> fetch_answer * U.

(** [process.env.FP8_FETCH_TOKEN] *)
Variable FP8_FETCH_TOKEN : option string.

(** [headersToUse], lines 247-257: the caller's headers over the default
    user agent, and the bearer token when the caller gives no
    [Authorization] and the variable is set and not empty. *)
Definition headersToUse (headers : option (gmap string string))
    : gmap string string :=
  let merged := default ∅ headers ∪ {[ "User-Agent" := "@farport/gcutils" ]} in
  match headers ≫= (fun h => h !! "Authorization"), PubSub.truthy FP8_FETCH_TOKEN with
  | None, Some token => <[ "Authorization" := "Bearer " +:+ token ]> merged
  | _, _ => merged
  end.

(** [fetcher(url, headers?)], lines 243-270. *)
Definition fetcher (url : string + URL) (headers : option (gmap string string))
    : M fetch_event U completion :=
  fun u =>
    let h := headersToUse headers in
    let '(answer, u') := fetch url h u in
    let tried : string + value :=
      match answer with
      | FetchRejected err => inr err
      | FetchResponse ok status (inr err) => inr err
      | FetchResponse ok status (inl text) =>
          if ok then inl text
          else inr (VErr (Err KError
                            ("Fetch error status " +:+ pretty status +:+ ": " +:+ text)
                            VUndefined))
      end in
    (match tried with
     | inl text => Returned (VStr text)
     | inr err => Thrown (VErr (createError (VStr "Fetch failed:") err))
     end, u', [EvFetch url h]).

End Fetcher.

(** The host name [checkIfHostResolves] looks up. *)
Definition host_of (input : string + URL) : string :=
  match input with inl s => s | inr url => hostname url end.

(** The world after [k] invocations of an action. *)
Fixpoint after {U : Type} (action : U -> outcome * U) (k : nat) (u : U) : U :=
  match k with
  | O => u
  | S k' => after action k' (action u).2
  end.

(** The outcome of the last invocation a trace records. *)
Definition last_invocation (t : list event) : option outcome :=
  last (omap (fun e => match e with EvInvoke o => Some o | _ => None end) t).

End HelperMore.

(** ** [src/pubsub/base.ts] and [src/pubsub/index.ts]: subscriptions,
    publishers and subscribers of [PubSubService] *)

Module Provisioning.
Import PubSub Pstore.

(** [Duration.from({ seconds })] *)
Record Duration : Type := { seconds : Z }.

Record RetryPolicy : Type := {
  minimumBackoff : option Duration;
  maximumBackoff : option Duration;
}.

(** [CreateSubscriptionOptions]: the two fields the code reads, and the
    other fields as a map. *)
Record CreateSubscriptionOptions : Type := {
  retryPolicy : option RetryPolicy;
  cso_gaxOpts : option CallOptions;
  cso_other : gmap string string;
}.

(** [SubscriptionOptions], which the code only passes on. *)
Record SubscriptionOptions : Type := { so_fields : gmap string string }.

(** [generateCreateSubscriptionOptions(options?)], base.ts lines 159-178. *)
Definition generateCreateSubscriptionOptions
    (options : option CreateSubscriptionOptions) : CreateSubscriptionOptions :=
  let result :=
    default {| retryPolicy := None; cso_gaxOpts := None; cso_other := ∅ |} options in
  let result :=
    match retryPolicy result with
    | Some _ => result
    | None =>
        {| retryPolicy := Some {| minimumBackoff := Some {| seconds := 1 |};
                                  maximumBackoff := Some {| seconds := 60 |} |};
           cso_gaxOpts := cso_gaxOpts result;
           cso_other := cso_other result |}
    end in
  match cso_gaxOpts result with
  | Some _ => result
  | None =>
      {| retryPolicy := retryPolicy result;
         cso_gaxOpts := Some (generateCallOptions (cso_gaxOpts result));
         cso_other := cso_other result |}
  end.

(** The retry policy given to a subscription whose creator gives none. *)
Definition default_retryPolicy : RetryPolicy :=
  {| minimumBackoff := Some {| seconds := 1 |};
     maximumBackoff := Some {| seconds := 60 |} |}.

(** The methods of [Topic] and [Subscription] that provisioning a
    subscription calls. *)
Class SubscriptionTransport (U : Type) : Type := {
  topic_subscription : Topic -> string -> option SubscriptionOptions -> Subscription;
  topic_createSubscription :
    Topic -> string -> CreateSubscriptionOptions -> U -> tresult Subscription * U;
  sub_setOptions : Subscription -> SubscriptionOptions -> U -> U;
}.

(** The calls of the layer, with the two that provisioning adds. *)
Inductive event' : Type :=
| Ev (e : event)
| EvCreateSubscription (t : Topic) (name : string) (o : CreateSubscriptionOptions)
| EvSetOptions (sub : Subscription) (o : SubscriptionOptions).

Definition is_createSubscription (e : event') : bool :=
  match e with EvCreateSubscription _ _ _ => true | _ => false end.

(** The calls to the transport among them. *)
Definition is_transport' (e : event') : bool :=
  match e with
  | Ev e' => is_transport e'
  | _ => true
  end.

Definition transport_calls (t : list event') : list event' :=
  filter (fun e => is_transport' e = true) t.

Section Service.
Context {U : Type} `{Transport U} `{SubscriptionTransport U}.

(** Code of the layer, run where the trace has the added calls. *)
Definition base {A} (m : M event U A) : M event' U A :=
  fun u => let '(a, u', t) := m u in (a, u', Ev <$> t).

(** A call to the transport, recorded. *)
Definition transport_call {A} (e : event') (c : U -> A * U) : M event' U A :=
  fun u => let '(a, u') := c u in (a, u', [e]).

(** [AbstractPubSub.getSubscription], base.ts lines 309-315. *)
Definition getSubscription (topic : Topic) (subscriptionName : string)
    (options : option SubscriptionOptions) : Subscription :=
  topic_subscription topic subscriptionName options.

(** [PubSubService.createSubscription], index.ts lines 265-300. *)
Definition createSubscription (topic : Topic) (subscriptionName : string)
    (options : option CreateSubscriptionOptions)
    (subscriptionOptions : option SubscriptionOptions)
    : M event' U (tresult Subscription) :=
  base (logger LDebug ("[PubSubService] Creating subscription: " +:+ subscriptionName
                         +:+ " for topic: " +:+ topic_name topic) None None) ;;
  let sub := getSubscription topic subscriptionName subscriptionOptions in
  r ← base (transport (EvSubExists sub) (sub_exists sub));
  match r with
  | TFail e => mret (TFail e)
  | TOk true =>
      base (logger LInfo ("[PubSubService] subscription already exists: "
                            +:+ sub_name sub) None None) ;;
      mret (TOk sub)
  | TOk false =>
      let createOpts := generateCreateSubscriptionOptions options in
      r ← transport_call (EvCreateSubscription topic subscriptionName createOpts)
            (topic_createSubscription topic subscriptionName createOpts);
      match r with
      | TFail e => mret (TFail e)
      | TOk newSub =>
          base (logger LInfo ("[PubSubService] new subscription created: "
                                +:+ sub_name newSub) None None) ;;
          match subscriptionOptions with
          | Some o =>
              transport_call (EvSetOptions newSub o) (fun u => (tt, sub_setOptions newSub o u))
          | None => mret tt
          end ;;
          mret (TOk newSub)
      end
  end.

(** [PubSubService.subscribe], index.ts lines 309-319. *)
Definition subscribe (subscription : Subscription)
    (messageHandler : Message -> M event U outcome)
    (errorHandler : option (JS.error -> option Message -> U -> completion * U))
    : M event U unit :=
  setupSubscriptionWithHandlers subscription messageHandler errorHandler.

(** [PubSubService.createPublisher], index.ts lines 328-337. *)
Definition createPublisher (topic : string + Topic) (options : option PublishOptions)
    : M event U (tresult Publisher) :=
  topicToUse ← match topic with
               | inl name => createTopic name options
               | inr t => mret (TOk t)
               end;
  match topicToUse with
  | TFail e => mret (TFail e)
  | TOk t => mret (TOk {| Pstore.topic := t |})
  end.

(** [PubSubService.createSubscriber], index.ts lines 348-364. *)
Definition createSubscriber (topic : string + Topic) (subscriptionName : string)
    (options : option CreateSubscriptionOptions)
    (topicOptions : option PublishOptions)
    : M event' U (tresult Subscriber) :=
  topicToUse ← match topic with
               | inl name => base (createTopic name topicOptions)
               | inr t => mret (TOk t)
               end;
  match topicToUse with
  | TFail e => mret (TFail e)
  | TOk t =>
      subscription ← createSubscription t subscriptionName options None;
      match subscription with
      | TFail e => mret (TFail e)
      | TOk sub => mret (TOk (new_Subscriber sub))
      end
  end.

End Service.

(** The warning [listenJson] logs for a message without the JSON content
    type. *)
Definition json_warning (this : Subscriber) (m : Message) : event :=
  EvLog LWarn ("Message id " +:+ msg_id m +:+ " does not have json contentType")
    None
    (Some (getPubSubLoggerPayload
             {| req_topic := None; req_subscription := Some (subscription this);
                req_message := Some m; req_messageId := None;
                req_error := None |})).

End Provisioning.

(** A transport for subscriptions over the same broker. *)
Module SimMore.
Import PubSub Pstore Provisioning.

Definition full_sub_name (name : string) : string :=
  "projects/p/subscriptions/" +:+ name.

Global Instance sim_subscriptions : SubscriptionTransport Sim.broker := {|
  topic_subscription t name o :=
    {| sub_name := full_sub_name name; sub_topic := Some (TopicObject t) |};
  topic_createSubscription t name o b :=
    if bool_decide (full_sub_name name ∈ Sim.b_subs b)
    then (TFail Sim.already_exists, b)
    else (TOk {| sub_name := full_sub_name name; sub_topic := None |},
          {| Sim.b_topics := Sim.b_topics b;
             Sim.b_subs := {[full_sub_name name]} ∪ Sim.b_subs b;
             Sim.b_seq := Sim.b_seq b |});
  sub_setOptions s o b := b;
|}.

(** A transport that is out of reach: every call to it fails. *)
Definition unreachable : value :=
  VErr (Err (KStatusError 14 "UNAVAILABLE" []) "14 UNAVAILABLE" VUndefined).

Definition offline : Transport unit := {|
  sub_exists s u := (TFail unreachable, u);
  sub_close s u := (TFail unreachable, u);
  sub_delete s u := (TFail unreachable, u);
  sub_removeAllListeners s u := u;
  sub_on s name l u := u;
  topic_exists t u := (TFail unreachable, u);
  topic_publishMessage t m u := (TFail unreachable, u);
  client_createTopic name co u := (TFail unreachable, u);
  client_formatName := Sim.full_name;
  JSON_parse := Sim.parse;
  JSON_stringify j := "{}";
|}.

(** A resolver that knows one host, and one that is out of order. *)
Definition resolver (hostname : string) (u : unit) : HelperMore.dns_answer * unit :=
  if bool_decide (hostname = "example.com")
  then (HelperMore.DnsAddresses ["93.184.216.34"], tt)
  else (HelperMore.DnsFailure (Some "ENOTFOUND")
          (VErr (Err KError "queryA ENOTFOUND" VUndefined)), tt).

Definition broken_resolver (hostname : string) (u : unit)
    : HelperMore.dns_answer * unit :=
  (HelperMore.DnsFailure (Some "ETIMEOUT")
     (VErr (Err KError "queryA ETIMEOUT" VUndefined)), tt).

(** A server that answers 404. *)
Definition not_found (url : string + HelperMore.URL) (h : gmap string string)
    (u : unit) : HelperMore.fetch_answer * unit :=
  (HelperMore.FetchResponse false 404 (inl "Not Found"), tt).

End SimMore.

(** * Properties of [retry] *)

Import Helper.

Section RetryFacts.
Context {U : Type}.
Implicit Types (action : U -> outcome * U) (opt : IRetryOptions)
  (u : U) (t : list event) (err v : value).

Lemma invocations_app t1 t2 :
  invocations (t1 ++ t2) = (invocations t1 + invocations t2)%nat.
Proof. unfold invocations. by rewrite filter_app, length_app. Qed.

Lemma invocations_invoke o t :
  invocations (EvInvoke o :: t) = S (invocations t).
Proof. done. Qed.

Lemma consulted_app t1 t2 : consulted (t1 ++ t2) = consulted t1 ++ consulted t2.
Proof. unfold consulted. apply omap_app. Qed.

Lemma delays_app t1 t2 : delays (t1 ++ t2) = delays t1 ++ delays t2.
Proof. unfold delays. apply omap_app. Qed.

(** The [catch] clause, case by case. *)
Lemma catch_clause_cases opt err u :
  exists t,
    catch_clause (U:=U) opt err u =
      (if match shouldRetry opt with
          | Some f => instanceof_Error err && f err
          | None => false
          end
          || retryOnAllErrors opt || instanceof_RetryError err
       then Continue else Throw err, u, t) /\
    invocations t = 0%nat /\ delays t = [] /\
    consulted t =
      match shouldRetry opt with
      | Some f => if instanceof_Error err then [err] else []
      | None => []
      end.
Proof.
  unfold catch_clause, consult, mbind, M_bind, mret, M_ret, emit.
  destruct (shouldRetry opt) as [f|]; simpl;
    [destruct (instanceof_Error err); simpl; [destruct (f err); simpl|]|];
    destruct (retryOnAllErrors opt); simpl;
    destruct (instanceof_RetryError err); simpl;
    eexists; (split; [reflexivity|]); repeat split.
Qed.

(** One attempt, as a function of what the action does. *)
Lemma attempt_cases action opt u :
  exists t,
    attempt action opt u =
      (decision opt (action u).1, (action u).2, EvInvoke (action u).1 :: t) /\
    invocations t = 0%nat /\ delays t = [] /\
    consulted t = consults opt (action u).1.
Proof.
  unfold attempt, try_block, invoke, decision, consults.
  unfold mbind at 1 2. unfold M_bind.
  destruct (action u) as [[result|err] u1]; simpl.
  - destruct (catch_clause_cases opt result u1) as (tc & Hc & Hi & Hd & Hs).
    unfold catch_decision, consult, mbind, M_bind, mret, M_ret, emit.
    destruct (shouldRetry opt) as [f|]; simpl.
    + destruct (f result); simpl; [by eexists|].
      destruct (instanceof_Error result); simpl in *.
      * rewrite Hc. eexists. split; [reflexivity|].
        change (EvShouldRetry result false :: tc)
          with ([EvShouldRetry result false] ++ tc).
        rewrite invocations_app, delays_app, consulted_app.
        by rewrite Hi, Hd, Hs.
      * destruct (is_undefined result && retryOnUndefined opt); by eexists.
    + destruct (instanceof_Error result); simpl in *.
      * rewrite Hc. eexists. split; [reflexivity|]. by rewrite Hi, Hd, Hs.
      * destruct (is_undefined result && retryOnUndefined opt); by eexists.
  - destruct (catch_clause_cases opt err u1) as (tc & Hc & Hi & Hd & Hs).
    rewrite Hc. unfold catch_decision. eexists. split; [reflexivity|].
    rewrite Hi, Hd, Hs. by destruct (shouldRetry opt).
Qed.

(** The loop, one pass at a time. *)
Lemma retry_loop_exit action opt fuel counter u :
  maxRetry opt <= counter ->
  retry_loop action opt (S fuel) counter u =
    (Some (Returned VUndefined), u, [EvDebug (LogMaxRetries (maxRetry opt))]).
Proof.
  intros Hle. simpl. destruct (Z.ltb_spec counter (maxRetry opt)); [lia|done].
Qed.

Lemma retry_loop_pass action opt fuel counter u :
  counter < maxRetry opt ->
  exists t,
    invocations t = 0%nat /\ delays t = [] /\
    consulted t = consults opt (action u).1 /\
    retry_loop action opt (S fuel) counter u =
      match decision opt (action u).1 with
      | Continue =>
          let r := retry_loop action opt fuel (counter + 1) (action u).2 in
          (result_of r, world_of r,
           before_attempt opt (counter + 1) ++ EvInvoke (action u).1 :: t ++ trace_of r)
      | Return v =>
          (Some (Returned v), (action u).2,
           before_attempt opt (counter + 1) ++ EvInvoke (action u).1 :: t)
      | Throw v =>
          (Some (Thrown v), (action u).2,
           before_attempt opt (counter + 1) ++ EvInvoke (action u).1 :: t)
      end.
Proof.
  intros Hlt.
  destruct (attempt_cases action opt u) as (t & Ha & Hi & Hd & Hs).
  exists t. split_and!; [done..|].
  simpl. destruct (Z.ltb_spec counter (maxRetry opt)); [|lia].
  unfold before_attempt, result_of, world_of, trace_of.
  unfold mbind, M_bind at 1 2.
  destruct (1 <? counter + 1); simpl; rewrite Ha;
    destruct (decision opt (action u).1); simpl;
    rewrite ?app_nil_r; try done;
    by destruct (retry_loop action opt fuel (counter + 1) (action u).2) as [[??]?].
Qed.

(** The loop ends within the passes [retry] allows it. *)
Lemma retry_loop_total action opt fuel counter u :
  (Z.to_nat (maxRetry opt - counter) < fuel)%nat ->
  exists c, result_of (retry_loop action opt fuel counter u) = Some c.
Proof.
  revert counter u. induction fuel as [|fuel IH]; intros counter u Hfuel; [lia|].
  destruct (Z.lt_ge_cases counter (maxRetry opt)) as [Hlt|Hge].
  - destruct (retry_loop_pass action opt fuel counter u Hlt) as (t & _ & _ & _ & ->).
    destruct (decision opt (action u).1); [|by eexists..].
    apply (IH (counter + 1) (action u).2). lia.
  - rewrite retry_loop_exit by done. by eexists.
Qed.

Lemma retry_total action options u :
  exists c, result_of (retry action options u) = Some c.
Proof. apply retry_loop_total. lia. Qed.

(** With no attempt allowed, the action is not invoked. *)
Lemma retry_no_attempt action options u :
  maxRetry (resolve_options options) <= 0 ->
  retry action options u =
    (Some (Returned VUndefined), u,
     [EvDebug (LogMaxRetries (maxRetry (resolve_options options)))]).
Proof. intros Hle. unfold retry. by rewrite retry_loop_exit. Qed.

Lemma retry_loop_all_raise action opt :
  retryOnAllErrors opt = true ->
  always_raises action ->
  forall (k fuel : nat) counter u,
    Z.to_nat (maxRetry opt - counter) = k -> (k < fuel)%nat ->
    exists u' t,
      retry_loop action opt fuel counter u = (Some (Returned VUndefined), u', t)
      /\ invocations t = k.
Proof.
  intros Hall Hraise. induction k as [|k IH]; intros fuel counter u Hk Hfuel;
    (destruct fuel as [|fuel]; [lia|]).
  - rewrite retry_loop_exit by lia. by eexists _, _.
  - destruct (retry_loop_pass action opt fuel counter u) as (t & Hi & _ & _ & ->);
      [lia|].
    destruct (Hraise u) as [err ->]. simpl.
    unfold catch_decision. rewrite Hall, orb_true_r. simpl.
    destruct (IH fuel (counter + 1) (action u).2) as (u' & t' & Hloop & Hinv);
      [lia..|].
    rewrite Hloop. unfold result_of, world_of, trace_of. simpl.
    eexists _, _. split; [reflexivity|].
    rewrite invocations_app.
    change (EvInvoke (Rejected err) :: t ++ t')
      with ([EvInvoke (Rejected err)] ++ t ++ t').
    rewrite !invocations_app, Hi, Hinv.
    unfold before_attempt. by destruct (1 <? counter + 1).
Qed.

Lemma first_invocation_retry action options u :
  first_invocation (trace_of (retry action options u)) =
    if 0 <? maxRetry (resolve_options options) then Some (action u).1 else None.
Proof.
  unfold retry. destruct (Z.ltb_spec 0 (maxRetry (resolve_options options))).
  - destruct (retry_loop_pass action (resolve_options options)
                (Z.to_nat (maxRetry (resolve_options options))) 0 u)
      as (t & _ & _ & _ & ->); [done|].
    by destruct (decision _ _).
  - by rewrite retry_loop_exit.
Qed.

Lemma decision_raised opt e :
  decision opt (Resolved (VErr e)) = decision opt (Rejected (VErr e)).
Proof.
  unfold decision, catch_decision. simpl.
  destruct (shouldRetry opt) as [f|]; [|done]. by destruct (f (VErr e)).
Qed.

Lemma decision_raising action opt u :
  decision opt (raising action u).1 = decision opt (action u).1
  /\ (raising action u).2 = (action u).2.
Proof.
  unfold raising. destruct (action u) as [[[]|] ?]; cbn [fst snd]; try done.
  by rewrite decision_raised.
Qed.

Lemma decision_Return opt o v :
  decision opt o = Return v -> instanceof_Error v = false.
Proof.
  unfold decision, catch_decision.
  destruct o as [result|err]; repeat case_match; naive_solver.
Qed.

Lemma retry_loop_raising action opt fuel : forall counter u,
  let r1 := retry_loop action opt fuel counter u in
  let r2 := retry_loop (raising action) opt fuel counter u in
  result_of r1 = result_of r2 /\ world_of r1 = world_of r2 /\
  invocations (trace_of r1) = invocations (trace_of r2) /\
  delays (trace_of r1) = delays (trace_of r2).
Proof.
  induction fuel as [|fuel IH]; intros counter u; [done|]. cbv zeta.
  destruct (Z.lt_ge_cases counter (maxRetry opt)) as [Hlt|Hge];
    [|by rewrite !retry_loop_exit].
  destruct (retry_loop_pass action opt fuel counter u Hlt)
    as (t1 & Hi1 & Hd1 & _ & E1).
  destruct (retry_loop_pass (raising action) opt fuel counter u Hlt)
    as (t2 & Hi2 & Hd2 & _ & E2).
  destruct (decision_raising action opt u) as [Hdec Hw].
  rewrite E1, E2, Hdec, Hw. clear E1 E2.
  destruct (IH (counter + 1) (action u).2) as (Hr & Hu & Hinv & Hdel).
  assert (Hcons : forall o o' (t t' : list event),
    invocations t = 0%nat -> invocations t' = 0%nat ->
    delays t = [] -> delays t' = [] ->
    invocations (EvInvoke o :: t) = invocations (EvInvoke o' :: t') /\
    delays (EvInvoke o :: t) = delays (EvInvoke o' :: t')).
  { intros o o' t t' H1 H2 H3 H4.
    change (EvInvoke o :: t) with ([EvInvoke o] ++ t).
    change (EvInvoke o' :: t') with ([EvInvoke o'] ++ t').
    by rewrite !invocations_app, !delays_app, H1, H2, H3, H4. }
  destruct (Hcons (action u).1 (raising action u).1 t1 t2) as [Hci Hcd]; [done..|].
  destruct (decision opt (action u).1); unfold result_of, world_of, trace_of;
    simpl; rewrite ?invocations_app, ?delays_app.
  - change (EvInvoke ?o :: ?t ++ ?l) with ((EvInvoke o :: t) ++ l).
    rewrite !invocations_app, !delays_app.
    unfold result_of, world_of, trace_of in *. by rewrite Hr, Hu, Hinv, Hdel, Hci, Hcd.
  - by rewrite Hci, Hcd.
  - by rewrite Hci, Hcd.
Qed.

Lemma retry_loop_never_returns_Error action opt fuel : forall counter u v,
  result_of (retry_loop action opt fuel counter u) = Some (Returned v) ->
  instanceof_Error v = false.
Proof.
  induction fuel as [|fuel IH]; intros counter u v; [done|].
  destruct (Z.lt_ge_cases counter (maxRetry opt)) as [Hlt|Hge].
  - destruct (retry_loop_pass action opt fuel counter u Hlt) as (t & _ & _ & _ & ->).
    destruct (decision opt (action u).1) eqn:Hdec; unfold result_of; simpl.
    + apply IH.
    + intros [= <-]. by eapply decision_Return.
    + done.
  - rewrite retry_loop_exit by done. by intros [= <-].
Qed.

End RetryFacts.

(** * The claims on [retry] *)

Section RetryClaims.
Import Helper.
Context {U : Type}.
Implicit Types (action : U -> outcome * U) (u : U).

(** C1.  With [maxRetry = n] and [retryOnAllErrors = true], an action that
    raises at every invocation is invoked exactly [n] times, and [retry]
    then returns [undefined]: nothing is raised to the caller. *)
Theorem C1_retry_gives_up_after_n_attempts action options (n : nat) u :
  maxRetry (resolve_options options) = Z.of_nat n ->
  retryOnAllErrors (resolve_options options) = true ->
  always_raises action ->
  exists u' t,
    retry action options u = (Some (Returned VUndefined), u', t)
    /\ invocations t = n.
Proof.
  intros Hn Hall Hraise. unfold retry.
  apply (retry_loop_all_raise action _ Hall Hraise n); lia.
Qed.

(** C5.  With [retryOnAllErrors = false] and no [shouldRetry], when the
    first invocation of the action raises a value that is not a
    [RetryError], the action is invoked exactly once and [retry] raises
    that very value. *)
Theorem C5_non_retryable_error_aborts action options u err :
  retryOnAllErrors (resolve_options options) = false ->
  shouldRetry (resolve_options options) = None ->
  instanceof_RetryError err = false ->
  first_invocation (trace_of (retry action options u)) = Some (Rejected err) ->
  result_of (retry action options u) = Some (Thrown err)
  /\ invocations (trace_of (retry action options u)) = 1%nat.
Proof.
  intros Hall Hshould Hkind Hfirst.
  rewrite first_invocation_retry in Hfirst.
  destruct (Z.ltb_spec 0 (maxRetry (resolve_options options))) as [Hlt|]; [|done].
  injection Hfirst as Ho. unfold retry.
  destruct (retry_loop_pass action (resolve_options options)
              (Z.to_nat (maxRetry (resolve_options options))) 0 u Hlt)
    as (t & Hi & _ & _ & ->).
  rewrite Ho. unfold decision, catch_decision. rewrite Hall, Hshould, Hkind. simpl.
  split; [done|]. unfold trace_of. simpl.
  change (EvInvoke (Rejected err) :: t) with ([EvInvoke (Rejected err)] ++ t).
  by rewrite invocations_app, Hi.
Qed.

(** C6.  When the action resolves to a value that is an [Error], the
    attempt ends as it does when the action raises that value: it never
    returns it; with [retryOnAllErrors = true] it ends with [continue],
    which starts the next attempt; with [retryOnAllErrors = false], no
    [shouldRetry] and a value that is not a [RetryError], it raises it, and
    so does [retry] when this is its first attempt; in the first case
    [retry] invokes the action again when more than one attempt is
    allowed.  As a whole, [retry]
    gives the same result, leaves the same world and makes the same
    invocations and waits as on the action that raises these values, and
    what it returns is never an [Error]. *)
Theorem C6_resolved_Error_is_treated_as_raised action options u e :
  (action u).1 = Resolved (VErr e) ->
  let opt := resolve_options options in
  (raising action u).1 = Rejected (VErr e)
  /\ result_of (attempt action opt u) = result_of (attempt (raising action) opt u)
  /\ world_of (attempt action opt u) = world_of (attempt (raising action) opt u)
  /\ (forall v, result_of (attempt action opt u) <> Return v)
  /\ (retryOnAllErrors opt = true ->
      result_of (attempt action opt u) = Continue
      /\ (1 < maxRetry opt ->
          (2 <= invocations (trace_of (retry action options u)))%nat))
  /\ (retryOnAllErrors opt = false -> shouldRetry opt = None ->
      instanceof_RetryError (VErr e) = false ->
      result_of (attempt action opt u) = Throw (VErr e)
      /\ (0 < maxRetry opt ->
          result_of (retry action options u) = Some (Thrown (VErr e))))
  /\ (forall u0,
        let r1 := retry action options u0 in
        let r2 := retry (raising action) options u0 in
        result_of r1 = result_of r2 /\ world_of r1 = world_of r2 /\
        invocations (trace_of r1) = invocations (trace_of r2) /\
        delays (trace_of r1) = delays (trace_of r2))
  /\ (forall u0 v, result_of (retry action options u0) = Some (Returned v) ->
        instanceof_Error v = false).
Proof.
  intros Ho opt.
  assert (Hopt : resolve_options options = opt) by done. clearbody opt.
  destruct (attempt_cases action opt u) as (t1 & E1 & _).
  destruct (attempt_cases (raising action) opt u) as (t2 & E2 & _).
  destruct (decision_raising action opt u) as [Hdec Hw].
  rewrite E1, E2, Hdec, Hw. unfold result_of, world_of. cbn [fst snd].
  assert (Hdecision : decision opt (action u).1 = catch_decision opt (VErr e)).
  { by rewrite Ho, decision_raised. }
  split_and!.
  - unfold raising. destruct (action u) as [o u1]. simpl in Ho. by subst o.
  - done.
  - done.
  - intros v Hv. apply decision_Return in Hv as Hnot.
    rewrite Hdecision in Hv. unfold catch_decision in Hv.
    by case_match.
  - intros Hall.
    assert (decision opt (action u).1 = Continue) as Hcontinue.
    { rewrite Hdecision. unfold catch_decision. by rewrite Hall, orb_true_r. }
    split; [done|]. intros Hlt. unfold retry. rewrite Hopt.
    destruct (Z.to_nat (maxRetry opt)) as [|fuel] eqn:Hfuel; [lia|].
    destruct (retry_loop_pass action opt (S fuel) 0 u) as (t & _ & _ & _ & ->);
      [lia|].
    rewrite Hcontinue.
    destruct (retry_loop_pass action opt fuel (0 + 1) (action u).2)
      as (t' & _ & _ & _ & ->); [lia|].
    unfold trace_of. cbn [snd].
    rewrite invocations_app, invocations_invoke, invocations_app.
    destruct (decision opt (action (action u).2).1); cbn [snd];
      rewrite ?invocations_app, invocations_invoke; lia.
  - intros Hall Hshould Hkind.
    assert (decision opt (action u).1 = Throw (VErr e)) as Hthrow.
    { rewrite Hdecision. unfold catch_decision. by rewrite Hall, Hshould, Hkind. }
    split; [done|]. intros Hlt. unfold retry. rewrite Hopt.
    destruct (retry_loop_pass action opt (Z.to_nat (maxRetry opt)) 0 u Hlt)
      as (t & _ & _ & _ & ->).
    by rewrite Hthrow.
  - intros u0. unfold retry. rewrite Hopt. apply retry_loop_raising.
  - intros u0 v. apply retry_loop_never_returns_Error.
Qed.

(** C10.  In the [catch] clause, [shouldRetry] is consulted only on a
    raised value that is an [Error].  For a raised value that is not one,
    [shouldRetry] is not consulted, whatever it would answer, and
    [retryOnAllErrors] alone decides: the loop goes on when it is true, and
    otherwise the value is raised to the caller, by the clause and by
    [retry] as a whole when the failing invocation is its first. *)
Theorem C10_shouldRetry_skipped_for_non_Error opt err u :
  (consulted (trace_of (catch_clause opt err u)) <> [] ->
     instanceof_Error err = true)
  /\ (instanceof_Error err = false ->
      consulted (trace_of (catch_clause opt err u)) = []
      /\ result_of (catch_clause opt err u) =
           (if retryOnAllErrors opt then Continue else Throw err)
      /\ (forall action options u0,
            opt = resolve_options options ->
            retryOnAllErrors opt = false ->
            first_invocation (trace_of (retry action options u0)) =
              Some (Rejected err) ->
            result_of (retry action options u0) = Some (Thrown err)
            /\ consulted (trace_of (retry action options u0)) = []
            /\ invocations (trace_of (retry action options u0)) = 1%nat)).
Proof.
  destruct (catch_clause_cases opt err u) as (t & E & _ & _ & Hs).
  assert (instanceof_Error err = false -> instanceof_RetryError err = false)
    as Hkind by by destruct err.
  assert (forall o : IRetryOptions, instanceof_Error err = false -> forall b : bool,
    match shouldRetry o with
    | Some f => instanceof_Error err && f err
    | None => false
    end || b = b) as Hb.
  { intros o -> b. by destruct (shouldRetry o). }
  split.
  - rewrite E. unfold trace_of. cbn [snd]. rewrite Hs.
    destruct (shouldRetry opt); [|done]. by destruct (instanceof_Error err).
  - intros Hnot. split_and!.
    + rewrite E. unfold trace_of. cbn [snd]. rewrite Hs, Hnot.
      by destruct (shouldRetry opt).
    + rewrite E. unfold result_of. cbn [fst].
      by rewrite Hb, Hkind, orb_false_r.
    + intros action options u0 -> Hall Hfirst.
      rewrite first_invocation_retry in Hfirst.
      destruct (Z.ltb_spec 0 (maxRetry (resolve_options options))) as [Hlt|];
        [|done].
      injection Hfirst as Ho. unfold retry.
      destruct (retry_loop_pass action (resolve_options options)
                  (Z.to_nat (maxRetry (resolve_options options))) 0 u0 Hlt)
        as (t' & Hi & _ & Hc & ->).
      rewrite Ho in *. unfold decision, catch_decision.
      rewrite Hb, Hall, Hkind by done. unfold result_of, trace_of. cbn [fst snd orb].
      change (before_attempt (resolve_options options) (0 + 1)) with (@nil event).
      change (EvInvoke (Rejected err) :: t') with ([EvInvoke (Rejected err)] ++ t').
      rewrite app_nil_l, invocations_app, consulted_app, Hi, Hc.
      unfold consults. rewrite Hnot.
      by destruct (shouldRetry (resolve_options options)).
Qed.

End RetryClaims.

Lemma C1_witness :
  maxRetry (resolve_options no_options) = Z.of_nat 3
  /\ retryOnAllErrors (resolve_options no_options) = true
  /\ always_raises (failing (VErr boom))
  /\ exists u' t,
       retry (failing (VErr boom)) no_options tt = (Some (Returned VUndefined), u', t)
       /\ invocations t = 3%nat.
Proof.
  assert (always_raises (failing (VErr boom))) as Hraise.
  { intros u. by exists (VErr boom). }
  split; [reflexivity|]. split; [reflexivity|]. split; [exact Hraise|].
  apply (C1_retry_gives_up_after_n_attempts (failing (VErr boom)) no_options 3 tt);
    [reflexivity|reflexivity|exact Hraise].
Defined.

Lemma C5_witness :
  let action := scripted in
  let script := [Rejected (VErr boom); Resolved (VStr "late")] in
  first_invocation (trace_of (retry action only_RetryError script))
    = Some (Rejected (VErr boom))
  /\ result_of (retry action only_RetryError script) = Some (Thrown (VErr boom))
  /\ invocations (trace_of (retry action only_RetryError script)) = 1%nat.
Proof.
  intros action script. split; [reflexivity|].
  apply (C5_non_retryable_error_aborts action only_RetryError script (VErr boom));
    reflexivity.
Defined.

Lemma C6_witness :
  let script := [Resolved (VErr boom); Resolved (VStr "late")] in
  (scripted script).1 = Resolved (VErr boom)
  /\ result_of (attempt scripted (resolve_options only_RetryError) script)
       = Throw (VErr boom)
  /\ result_of (retry scripted only_RetryError script) = Some (Thrown (VErr boom))
  /\ result_of (attempt scripted (resolve_options no_options) script) = Continue.
Proof.
  intros script.
  pose proof (C6_resolved_Error_is_treated_as_raised scripted only_RetryError
                script boom eq_refl) as (_ & _ & _ & _ & _ & Hthrow & _).
  pose proof (C6_resolved_Error_is_treated_as_raised scripted no_options
                script boom eq_refl) as (_ & _ & _ & _ & Hcontinue & _).
  destruct (Hthrow eq_refl eq_refl eq_refl) as [Hstep Hrun].
  split; [reflexivity|]. split; [exact Hstep|].
  split; [apply Hrun; reflexivity|]. apply (Hcontinue eq_refl).
Defined.

Lemma C10_witness :
  let script := [Rejected (VStr "oops"); Resolved (VStr "late")] in
  instanceof_Error (VStr "oops") = false
  /\ first_invocation (trace_of (retry scripted eager_shouldRetry script))
       = Some (Rejected (VStr "oops"))
  /\ result_of (retry scripted eager_shouldRetry script) = Some (Thrown (VStr "oops"))
  /\ consulted (trace_of (retry scripted eager_shouldRetry script)) = []
  /\ invocations (trace_of (retry scripted eager_shouldRetry script)) = 1%nat.
Proof.
  intros script. split; [reflexivity|]. split; [reflexivity|].
  pose proof (C10_shouldRetry_skipped_for_non_Error
                (resolve_options eager_shouldRetry) (VStr "oops") script)
    as [_ Hskip].
  destruct (Hskip eq_refl) as (_ & _ & Hrun).
  apply (Hrun scripted eager_shouldRetry script); reflexivity.
Defined.

(** * The claims on the Pub/Sub layer *)

Import PubSub Pstore PubSubSpec.










Section DeliveryClaims.
Context {U : Type} `{Transport U}.


(** The callback of ['message'], by the outcome of the handler and by how
    the error handler completes. *)
Lemma on_message_cases subscription
    (messageHandler : Message -> M event U outcome) errorHandler m u :
  on_message subscription messageHandler errorHandler m u =
    let r := messageHandler m u in
    match result_of r with
    | Resolved _ => (Resolved VUndefined, world_of r, trace_of r ++ [EvAck m])
    | Rejected err =>
        let error := Helper.createError (VStr "messageHandler Error:") err in
        match errorHandler with
        | Some h =>
            let called := h error (Some m) (world_of r) in
            (match called.1 with
             | Returned _ => Resolved VUndefined
             | Thrown v => Rejected v
             end,
             called.2,
             trace_of r ++ [EvNack m; EvErrHandler error (Some m)])
        | None =>
            (Resolved VUndefined, world_of r,
             trace_of r ++ [EvNack m; EvErrHandler error (Some m);
                            default_log subscription error m])
        end
    end.
Proof.
  unfold on_message, errHandler, default_errorHandler, logger, default_log, callback.
  unfold mbind, M_bind, mret, M_ret, emit, result_of, world_of, trace_of.
  destruct (messageHandler m u) as [[[v|err] u1] t1]; cbn; [done|].
  destruct errorHandler as [h|]; cbn; [|done].
  by destruct (h _ _ u1) as [[v|v] u2].
Qed.



End DeliveryClaims.



Section LifecycleClaims.
Context {U : Type} `{Transport U}.
Implicit Types (this : Subscriber) (u : U) (c : @call U).

Lemma listen_closed mh eh this u :
  subscriberClosed this = true ->
  listen mh eh this u = (Thrown (closed_error this), this, u, []).
Proof. intros Hc. unfold listen. by rewrite Hc. Qed.

Lemma listen_keeps mh eh this u :
  (result_of (listen mh eh this u)).2 = this.
Proof.
  unfold listen, transport, setupSubscriptionWithHandlers, on, transport, result_of.
  unfold mbind, M_bind, mret, M_ret.
  destruct (subscriberClosed this); [done|].
  destruct (sub_exists (subscription this) u) as [[[]|] ?]; by simpl.
Qed.

Lemma close_spec this u :
  let r := result_of (close this u) in
  subscription r.2 = subscription this
  /\ (subscriberClosed this = true -> subscriberClosed r.2 = true)
  /\ (forall v, r.1 = Returned v -> subscriberClosed r.2 = true).
Proof.
  unfold close, removeAllListeners, transport, result_of.
  unfold mbind, M_bind, mret, M_ret.
  destruct (sub_close _ _) as [[[]|e] u1]; by simpl.
Qed.

Lemma delete_spec this u :
  let r := result_of (delete this u) in
  subscription r.2 = subscription this
  /\ (subscriberClosed this = true -> subscriberClosed r.2 = true)
  /\ (forall v, r.1 = Returned v -> subscriberClosed r.2 = true).
Proof.
  pose proof (close_spec this u) as (Hs & Hk & Hc).
  unfold delete. unfold mbind, M_bind. unfold result_of in *.
  destruct (subscriberClosed this) eqn:Hclosed; cbn [negb].
  - unfold transport, mbind, M_bind, mret, M_ret. cbn.
    destruct (sub_exists _ _) as [[[]|e] u1]; cbn;
      [destruct (sub_delete _ _) as [[[]|e] u2]|..]; by cbn.
  - destruct (close this u) as [[[[v|e] this1] u1] t1]; cbn in *.
    + unfold transport, mbind, M_bind, mret, M_ret.
      destruct (sub_exists _ _) as [[[]|e] u2]; cbn;
        [destruct (sub_delete _ _) as [[[]|e] u3]|..]; cbn;
        split_and!; eauto.
    + split_and!; [done|done|]. intros ? [=].
Qed.

(** No call reopens a closed [Subscriber], nor changes its subscription. *)
Lemma perform_keeps_closed c this u :
  subscriberClosed this = true ->
  subscriberClosed (result_of (perform c this u)).2 = true
  /\ subscription (result_of (perform c this u)).2 = subscription this.
Proof.
  intros Hc. destruct c as [mh eh|mh eh| |]; simpl.
  - by rewrite listen_keeps.
  - unfold listenJson. by rewrite listen_keeps.
  - by destruct (close_spec this u) as (-> & -> & _).
  - by destruct (delete_spec this u) as (-> & -> & _).
Qed.

Lemma perform_all_keeps_closed cs : forall this u,
  subscriberClosed this = true ->
  subscriberClosed (result_of (perform_all cs this u)) = true
  /\ subscription (result_of (perform_all cs this u)) = subscription this.
Proof.
  induction cs as [|c cs IH]; intros this u Hc; [done|].
  simpl. unfold mbind, M_bind, result_of in *.
  destruct (perform_keeps_closed c this u Hc) as [Hc1 Hs1].
  destruct (perform c this u) as [[r u1] t1]. simpl in *.
  destruct (IH r.2 u1 Hc1) as [Hc2 Hs2].
  destruct (perform_all cs r.2 u1) as [[this2 u2] t2]. simpl in *.
  split; [done|]. by rewrite Hs2.
Qed.

(** C3.  Once [close()] or [delete()] has completed on a [Subscriber],
    then, whatever calls are made on it afterwards, [listen] and
    [listenJson] raise the error that the subscriber is closed; they make
    no call at all, to the transport or to anything else, leave the world
    as it is (no handler is installed), and leave the object closed. *)
Theorem C3_closed_subscriber_rejects_listen this u c done_ v later :
  (c = CallClose \/ c = CallDelete) ->
  result_of (perform c this u) = (Returned v, done_) ->
  let after := perform_all later done_ (world_of (perform c this u)) in
  let this' := result_of after in
  let u' := world_of after in
  subscriberClosed this' = true
  /\ (forall mh eh,
        listen mh eh this' u' = (Thrown (closed_error this), this', u', []))
  /\ (forall mh eh,
        listenJson mh eh this' u' = (Thrown (closed_error this), this', u', [])).
Proof.
  intros Hcall Hdone after this' u'.
  assert (subscriberClosed done_ = true /\ subscription done_ = subscription this)
    as [Hclosed Hsub].
  { destruct Hcall as [-> | ->]; simpl in Hdone.
    - destruct (close_spec this u) as (Hs & _ & Hc).
      rewrite Hdone in Hs, Hc. simpl in *. eauto.
    - destruct (delete_spec this u) as (Hs & _ & Hc).
      rewrite Hdone in Hs, Hc. simpl in *. eauto. }
  destruct (perform_all_keeps_closed later done_
              (world_of (perform c this u)) Hclosed) as [Hclosed' Hsub'].
  fold after in Hclosed', Hsub'. fold this' in Hclosed', Hsub'.
  assert (closed_error this' = closed_error this) as Herr.
  { unfold closed_error. by rewrite Hsub', Hsub. }
  split_and!; [done|..]; intros mh eh; unfold listenJson;
    by rewrite listen_closed, Herr.
Qed.

End LifecycleClaims.

Lemma C3_witness :
  let this := new_Subscriber Sim.orders_worker in
  let ran := perform CallDelete this Sim.live_broker in
  let later := [CallListen (user_handler Sim.raising_handler) None; CallClose] in
  let done_ := {| subscriberClosed := true; subscription := Sim.orders_worker |} in
  result_of ran = (Returned VUndefined, done_)
  /\ let after := perform_all later done_ (world_of ran) in
     subscriberClosed (result_of after) = true
     /\ listen (user_handler Sim.raising_handler) None
          (result_of after) (world_of after)
        = (Thrown (closed_error this), result_of after, world_of after, []).
Proof.
  intros this ran later done_.
  assert (result_of ran = (Returned VUndefined, done_)) as Hdone
    by (vm_compute; reflexivity).
  split; [exact Hdone|].
  destruct (C3_closed_subscriber_rejects_listen this Sim.live_broker CallDelete
              done_ VUndefined later (or_intror eq_refl) Hdone) as (Hc & Hl & _).
  split; [exact Hc|]. apply Hl.
Defined.

Section PublisherClaims.
Context {U : Type} `{Transport U}.
Implicit Types (p : Publisher) (w : store * U).

Lemma publishJson_run p data options w :
  exists l la s',
    let m := {| pm_json := Some data; pm_data := None;
                pm_attributes :=
                  Some (<["contentType" := CONTENT_TYPE_JSON]>
                          (match options with
                           | Some l0 =>
                               match attributes (read_options w.1 l0) with
                               | Some la0 => read_attributes w.1 la0
                               | None => ∅
                               end
                           | None => ∅
                           end));
                pm_orderingKey :=
                  match options with
                  | Some l0 => orderingKey (read_options w.1 l0)
                  | None => None
                  end |} in
    publishJson p data options w =
      ((topic_publishMessage (topic p) m w.2).1,
       (s', (topic_publishMessage (topic p) m w.2).2),
       [EvPublish (topic p) m])
    /\ (forall l0, options = Some l0 -> l = l0)
    /\ attributes (read_options s' l) = Some la
    /\ orderingKey (read_options s' l) = pm_orderingKey m
    /\ read_attributes s' la = default ∅ (pm_attributes m)
    /\ (forall l0 la0, options = Some l0 ->
          attributes (read_options w.1 l0) = Some la0 ->
          la = la0 /\ options_objs s' = options_objs w.1)
    /\ (forall l0, options = Some l0 ->
          attributes (read_options w.1 l0) = None ->
          attributes_objs w.1 !! la = None
          /\ options_objs s' =
               <[l0 := {| attributes := Some la;
                          orderingKey := orderingKey (read_options w.1 l0) |}]>
                 (options_objs w.1))
    /\ attributes_objs s' =
         <[la := default ∅ (pm_attributes m)]> (attributes_objs w.1).
Proof.
  destruct w as [s u]. unfold publishJson, topic_publish.
  unfold new_attributes, new_options, get_options, set_options_attributes,
    set_attribute, modify, mbind, M_bind, mret, M_ret.
  unfold snapshot, read_options, read_attributes.
  destruct options as [l0|]; cbn.
  - destruct (attributes (default _ (options_objs s !! l0))) as [la0|] eqn:Hattr; cbn.
    + rewrite Hattr. cbn. rewrite lookup_insert_eq. cbn.
      destruct (topic_publishMessage _ _ u) as [r u1] eqn:Hpub.
      eexists l0, la0, _. cbn. split; [reflexivity|]. cbn.
      rewrite Hattr, lookup_insert_eq.
      split_and!; try done; intros; simplify_eq; try done; split; congruence.
    + set (la := fresh (dom (attributes_objs s))).
      assert (attributes_objs s !! la = None) as Hfresh.
      { apply not_elem_of_dom. apply is_fresh. }
      repeat (rewrite !lookup_insert_eq; cbn).
      destruct (topic_publishMessage _ _ u) as [r u1] eqn:Hpub.
      eexists l0, la, _. cbn. split; [reflexivity|]. cbn.
      rewrite !lookup_insert_eq. cbn.
      split_and!; try done; try (by rewrite insert_insert_eq);
        intros; simplify_eq; try done; split; congruence.
  - set (la := fresh (dom (attributes_objs s))).
    set (l := fresh (dom (options_objs s))).
    repeat (rewrite !lookup_insert_eq; cbn).
    destruct (topic_publishMessage _ _ u) as [r u1] eqn:Hpub.
    eexists l, la, _. cbn. split; [reflexivity|]. cbn.
    rewrite !lookup_insert_eq. cbn.
    split_and!; try done. by rewrite insert_insert_eq.
Qed.

(** X24.  For every value and every [options], [publishJson] makes exactly
    one call to the transport: [publishMessage] on its topic, with a
    message that carries the value as [json] and whose attributes, at the
    time of the call, have [contentType] equal to ['application/json'],
    whatever the caller had put there, and the caller's other attributes;
    it returns what that call returns. *)
Theorem X24_publishJson_marks_and_publishes p data options w :
  let run := publishJson p data options w in
  let given :=
    match options with
    | Some l =>
        match attributes (read_options w.1 l) with
        | Some la => read_attributes w.1 la
        | None => ∅
        end
    | None => ∅
    end in
  exists m a,
    filter (fun e => is_transport e = true) (trace_of run) = [EvPublish (topic p) m]
    /\ result_of run = (topic_publishMessage (topic p) m w.2).1
    /\ pm_json m = Some data
    /\ pm_attributes m = Some a
    /\ a !! "contentType" = Some CONTENT_TYPE_JSON
    /\ (forall key, key <> "contentType" -> a !! key = given !! key).
Proof.
  destruct (publishJson_run p data options w) as (l & la & s' & E & _).
  cbv zeta in *. rewrite E. unfold trace_of, result_of. cbn [fst snd].
  eexists _, _. split_and!; try reflexivity.
  - apply lookup_insert_eq.
  - intros key Hkey. by rewrite lookup_insert_ne.
Qed.

(** C9.  [publishJson] writes through the reference it is given: after the
    call, the caller's [options] object has an [attributes] object whose
    [contentType] is ['application/json'].  That attributes object is the
    one the caller's object already had, written in place, or else a new
    one stored into the caller's object; no other options object is
    written, and the other fields and attributes are kept. *)
Theorem C9_publishJson_writes_the_callers_options p data l w :
  let s := w.1 in
  let s' := (world_of (publishJson p data (Some l) w)).1 in
  exists la,
    attributes (read_options s' l) = Some la
    /\ read_attributes s' la !! "contentType" = Some CONTENT_TYPE_JSON
    /\ orderingKey (read_options s' l) = orderingKey (read_options s l)
    /\ match attributes (read_options s l) with
       | Some la0 =>
           la = la0
           /\ options_objs s' = options_objs s
           /\ attributes_objs s' =
                <[la := <["contentType" := CONTENT_TYPE_JSON]> (read_attributes s la0)]>
                  (attributes_objs s)
       | None =>
           attributes_objs s !! la = None
           /\ options_objs s' =
                <[l := {| attributes := Some la;
                          orderingKey := orderingKey (read_options s l) |}]>
                  (options_objs s)
           /\ attributes_objs s' =
                <[la := {[ "contentType" := CONTENT_TYPE_JSON ]}]> (attributes_objs s)
       end.
Proof.
  destruct (publishJson_run p data (Some l) w)
    as (l' & la & s' & E & Hl & Hattr & Hkey & Hread & Hsame & Hnew & Hobjs).
  cbv zeta in *. rewrite E. unfold world_of. cbn [fst snd] in *.
  rewrite <- (Hl l eq_refl) in *. clear Hl.
  exists la. split_and!; [done| |done|].
  - rewrite Hread. apply lookup_insert_eq.
  - destruct (attributes (read_options w.1 l')) as [la0|] eqn:Hold.
    + destruct (Hsame l' la0 eq_refl Hold) as [-> Ho]. by rewrite Hobjs.
    + destruct (Hnew l' eq_refl Hold) as [Hf Ho]. by rewrite Hobjs.
Qed.

End PublisherClaims.

(** C4.  [publishJson] on [{a: 1}], without options: it hands the message
    to the transport's [publishMessage] and writes nothing to the log,
    where a call of [Publisher.publishMessage] with the same message logs
    the message id and the content type after the transport has
    answered. *)
Theorem C4_publishJson_does_not_log :
  let p := {| topic := Sim.orders |} in
  let data := JObj [("a", JNum 1)] in
  let w := (Sim.empty_store, Sim.live_broker) in
  ~ (trace_of (publishJson p data None w)
       = trace_of (publishJson_as_specified p data None w))
  /\ count is_log (trace_of (publishJson p data None w)) = 0%nat
  /\ filter (fun e => is_log e = true) (trace_of (publishJson_as_specified p data None w))
     = [EvLog LInfo "Published messageId 0 with contentType application/json"
          None None].
Proof.
  intros p data w. split_and!.
  - intros Heq. apply (f_equal length) in Heq. vm_compute in Heq. discriminate.
  - vm_compute. reflexivity.
  - vm_compute. reflexivity.
Qed.

Lemma X24_witness :
  let p := {| topic := Sim.orders |} in
  let w := (Sim.empty_store, Sim.live_broker) in
  let run := publishJson p (JNum 1) None w in
  "customAttr" <> "contentType"
  /\ exists m a,
       filter (fun e => is_transport e = true) (trace_of run) = [EvPublish (topic p) m]
       /\ pm_attributes m = Some a
       /\ a !! "contentType" = Some CONTENT_TYPE_JSON
       /\ a !! "customAttr" = None.
Proof.
  intros p w run. split; [discriminate|].
  destruct (X24_publishJson_marks_and_publishes p (JNum 1) None w)
    as (m & a & Ht & _ & _ & Ha & Hct & Hother).
  exists m, a. split; [exact Ht|]. split; [exact Ha|]. split; [exact Hct|].
  rewrite (Hother "customAttr"); [reflexivity|discriminate].
Defined.

Section ProvisioningClaims.
Context {U : Type} `{Transport U}.

(** [createTopic] on a topic the probe reports as existing. *)
Lemma createTopic_existing topicName options (u u' : U) :
  topic_exists (getTopic topicName options) u = (TOk true, u') ->
  createTopic topicName options u =
    (TOk (getTopic topicName options), u',
     [EvTopicExists (getTopic topicName options);
      EvLog LInfo ("[PubSubService] topic already exists: "
                     +:+ topic_name (getTopic topicName options)) None None]).
Proof.
  intros Hprobe. unfold createTopic, transport, logger.
  unfold mbind, M_bind, mret, M_ret, emit. by rewrite Hprobe.
Qed.

(** What a call of [createTopic] that returns a handle leaves behind: the
    handle bears the client's name of the topic, and the next probe of
    that name succeeds. *)
Lemma createTopic_returned topicName options (u : U) h :
  probe_after_create U -> probe_stable U -> created_name U ->
  result_of (createTopic topicName options u) = TOk h ->
  topic_name h = client_formatName topicName
  /\ forall t, topic_name t = client_formatName topicName ->
       exists u'',
         topic_exists t (world_of (createTopic topicName options u))
           = (TOk true, u'').
Proof.
  intros Hcreate Hstable Hname.
  unfold createTopic, transport, logger, result_of, world_of.
  unfold mbind, M_bind, mret, M_ret, emit.
  destruct (topic_exists (getTopic topicName options) u)
    as [[[]|e] u1] eqn:Hprobe; cbn; [| |done].
  - intros [= <-]. split; [done|]. intros t Ht.
    by apply (Hstable (getTopic topicName options) t u u1).
  - destruct (client_createTopic _ _ u1) as [[newTopic|e] u2] eqn:Hc; cbn; [|done].
    intros [= <-].
    pose proof (Hname _ _ _ _ _ Hc) as Hn.
    split; [by destruct options|].
    intros t Ht. by apply (Hcreate _ _ _ _ _ t Hc).
Qed.

(** C7.  On a transport where the probe of a topic that was created or
    seen succeeds, when a call of [createTopic] has returned a handle, the
    next call with the same name makes one call to the transport, the
    probe, and no call to create; it returns the handle [getTopic] built,
    as it is, and that handle bears the same topic name as the first. *)
Theorem C7_createTopic_twice topicName options1 options2 (u : U) h1 :
  probe_after_create U -> probe_stable U -> created_name U ->
  result_of (createTopic topicName options1 u) = TOk h1 ->
  let second :=
    createTopic topicName options2 (world_of (createTopic topicName options1 u)) in
  result_of second = TOk (getTopic topicName options2)
  /\ topic_name (getTopic topicName options2) = topic_name h1
  /\ count is_createTopic (trace_of second) = 0%nat
  /\ filter (fun e => is_transport e = true) (trace_of second)
     = [EvTopicExists (getTopic topicName options2)].
Proof.
  intros Hcreate Hstable Hname Hfirst second.
  destruct (createTopic_returned topicName options1 u h1
              Hcreate Hstable Hname Hfirst) as [Hn Hprobe].
  destruct (Hprobe (getTopic topicName options2) eq_refl) as [u'' Hp].
  unfold second. rewrite (createTopic_existing _ _ _ _ Hp).
  unfold result_of, trace_of. cbn [fst snd].
  split_and!; [done|by rewrite Hn|done|done].
Qed.

End ProvisioningClaims.

Lemma sim_probe_after_create : probe_after_create Sim.broker.
Proof.
  intros name co u u' h t Hc Ht. exists u'. cbn in *.
  case_bool_decide as Hin; simplify_eq. cbn.
  rewrite Ht. rewrite bool_decide_eq_true_2; [done|]. set_solver.
Qed.

Lemma sim_probe_stable : probe_stable Sim.broker.
Proof.
  intros t t' u u' Hp Ht. exists u'. cbn in *.
  injection Hp as Hin ->. by rewrite Ht, Hin.
Qed.

Lemma sim_created_name : created_name Sim.broker.
Proof.
  intros name co u u' h Hc. cbn in *. case_bool_decide; by simplify_eq.
Qed.

Lemma C7_witness :
  let first := createTopic "orders" None Sim.empty_broker in
  let second := createTopic "orders" None (world_of first) in
  result_of first = TOk Sim.orders
  /\ result_of second = TOk (getTopic "orders" None)
  /\ topic_name (getTopic (U:=Sim.broker) "orders" None) = topic_name Sim.orders
  /\ count is_createTopic (trace_of second) = 0%nat
  /\ filter (fun e => is_transport e = true) (trace_of second)
     = [EvTopicExists (getTopic "orders" None)].
Proof.
  intros first second.
  assert (result_of first = TOk Sim.orders) as Hfirst by (vm_compute; reflexivity).
  split; [exact Hfirst|].
  exact (C7_createTopic_twice "orders" None None Sim.empty_broker Sim.orders
           sim_probe_after_create sim_probe_stable sim_created_name Hfirst).
Defined.

(** * The tests of the repository, on the embedding *)

Section Tests.

(** helper.spec.ts, [Simple retry usage - undefined]. *)
Example test_retry_undefined :
let run := retry scripted no_options
             [Resolved VUndefined; Resolved VUndefined; Resolved (VStr "val")] in
result_of run = Some (Returned (VStr "val"))
/\ invocations (trace_of run) = 3%nat /\ delays (trace_of run) = [100; 100].
Proof. done. Qed.

(** helper.spec.ts, [return undefined from action - retryOnUndefined = false]. *)
Example test_retry_undefined_not_retried :
let options := {| p_waitFor := None; p_maxRetry := None;
                  p_retryOnUndefined := Some false;
                  p_retryOnAllErrors := None; p_shouldRetry := None |} in
let run := retry scripted options
             [Resolved VUndefined; Resolved VUndefined; Resolved (VStr "val")] in
result_of run = Some (Returned VUndefined) /\ invocations (trace_of run) = 1%nat.
Proof. done. Qed.

(** helper.spec.ts, [returns true when action succeeds after retries]. *)
Example test_retry_returned_RetryError :
let retryError := VErr (Err KRetryError "retry me" VUndefined) in
let options := {| p_waitFor := Some 15; p_maxRetry := Some 5;
                  p_retryOnUndefined := None;
                  p_retryOnAllErrors := None; p_shouldRetry := None |} in
let run := retry scripted options
             [Rejected retryError; Resolved retryError; Resolved (VBool true)] in
result_of run = Some (Returned (VBool true))
/\ invocations (trace_of run) = 3%nat /\ delays (trace_of run) = [15; 15].
Proof. done. Qed.

(** helper.spec.ts, [returns undefined when maxRetry is 1]. *)
Example test_retry_maxRetry_1 :
let options := {| p_waitFor := Some 10; p_maxRetry := Some 1;
                  p_retryOnUndefined := None;
                  p_retryOnAllErrors := None; p_shouldRetry := None |} in
let run := retry (failing (VErr boom)) options tt in
result_of run = Some (Returned VUndefined)
/\ invocations (trace_of run) = 1%nat /\ delays (trace_of run) = [].
Proof. done. Qed.

(** helper.spec.ts, [Retry on only on RetryError - retryOnAllErrors false]. *)
Example test_retry_only_RetryError :
let error := VErr (Err KError "error zwVlmP2GWh" VUndefined) in
let options := {| p_waitFor := Some 50; p_maxRetry := None;
                  p_retryOnUndefined := None;
                  p_retryOnAllErrors := Some false; p_shouldRetry := None |} in
let run := retry scripted options
             [Rejected (VErr (Err KRetryError "retry error zwVlmP2GWh" VUndefined));
              Rejected error; Resolved (VStr "result-zwVlmP2GWh")] in
result_of run = Some (Thrown error)
/\ invocations (trace_of run) = 2%nat /\ delays (trace_of run) = [50].
Proof. done. Qed.

(** helper.spec.ts, [supports custom shouldRetry error predicate]. *)
Example test_retry_shouldRetry_on_errors :
let retry_me := VErr (Err KError "retry-YknOJVlxab" VUndefined) in
let fatal := VErr (Err KError "err-YknOJVlxab" VUndefined) in
let predicate v :=
  match v with
  | VErr e => bool_decide (err_message e = "retry-YknOJVlxab")
  | _ => false
  end in
let options := {| p_waitFor := Some 50; p_maxRetry := None;
                  p_retryOnUndefined := None;
                  p_retryOnAllErrors := Some false;
                  p_shouldRetry := Some predicate |} in
let run := retry scripted options
             [Rejected retry_me; Resolved retry_me; Resolved fatal] in
result_of run = Some (Thrown fatal)
/\ invocations (trace_of run) = 3%nat /\ delays (trace_of run) = [50; 50].
Proof. done. Qed.

(** pstore.core.spec.ts, [Error in messageHandler should trigger
  errorHandler]: the message of the error the handler is given. *)
Example test_messageHandler_error_message :
err_message (createError (VStr "messageHandler Error:")
               (VErr (Err KError "Test error" VUndefined)))
= "messageHandler Error: Test error".
Proof. done. Qed.

(** pstore.core.spec.ts, the same test: the payload built from a
  subscription without topic and a plain error has the subscription name
  only. *)
Example test_payload_of_plain_error :
(getPubSubLoggerPayload
   {| req_topic := None;
      req_subscription := Some {| sub_name := "projects/p/subscriptions/s";
                                  sub_topic := None |};
      req_message := None; req_messageId := None;
      req_error := Some (Err KError "messageHandler Error: Test error" VUndefined) |}).2
= {| subscriptionName := Some "projects/p/subscriptions/s";
     topicName := None; messageId := None; messageContentType := None;
     messageAckId := None; grpcErrorStatus := None; grpcErrorMetadata := None;
     grpcErrorDetails := None |}.
Proof. done. Qed.

(** pstore.spec.ts, [Subscriber close should delete subscription]: after
  [delete()] the subscription is gone from the broker. *)
Example test_delete_removes_subscription :
let run := delete (new_Subscriber Sim.orders_worker) Sim.live_broker in
result_of run
  = (Returned VUndefined,
     {| subscriberClosed := true; subscription := Sim.orders_worker |})
/\ Sim.b_subs (world_of run) = ∅
/\ trace_of run = [EvRemoveAllListeners Sim.orders_worker;
                    EvSubClose Sim.orders_worker;
                    EvSubExists Sim.orders_worker;
                    EvSubDelete Sim.orders_worker].
Proof. vm_compute. done. Qed.

End Tests.

(** * The functions of the runtime and of the transport, on concrete inputs *)

Section Runtime.

Example test_number_to_string :
  to_string (VNum 404) = "404"
  /\ to_string (VNum (-42)) = "-42"
  /\ to_string (VNum (2 ^ 53 + 1)) = "9007199254740992"
  /\ to_string (VNum (2 ^ 60)) = "1152921504606847000"
  /\ to_string (VNum (10 ^ 21 - 1)) = "1e+21"
  /\ to_string (VNum (2 ^ 70)) = "1.1805916207174113e+21"
  /\ to_string (VNum (- 10 ^ 23)) = "-1e+23".
Proof. vm_compute. by split_and!. Qed.

Example test_error_to_string :
  to_string (VErr (Err KError "" VUndefined)) = "Error"
  /\ to_string (VErr (Err KRetryError "again" VUndefined)) = "RetryError: again".
Proof. by split. Qed.

Example test_metadata_toJSON :
  metadata_toJSON [("a", "1"); ("b", "2"); ("a", "3")]
    = JObj [("a", JArr [JStr "1"; JStr "3"]); ("b", JArr [JStr "2"])].
Proof. reflexivity. Qed.

End Runtime.

(** * Further properties of [src/core/helper.ts] *)

Import HelperMore.

Section RetryMore.
Context {U : Type}.
Implicit Types (action : U -> outcome * U) (opt : IRetryOptions)
  (u : U) (t : list Helper.event) (err v : value).

Lemma last_invocation_app t1 t2 :
  last_invocation (t1 ++ t2) =
    match last_invocation t2 with
    | Some o => Some o
    | None => last_invocation t1
    end.
Proof.
  unfold last_invocation. rewrite omap_app.
  destruct (omap _ t2) as [|o l] using rev_ind; [by rewrite app_nil_r|].
  by rewrite app_assoc, !last_snoc.
Qed.

Lemma last_invocation_quiet t :
  invocations t = 0%nat -> last_invocation t = None.
Proof.
  unfold invocations, last_invocation.
  induction t as [|[] t IH]; simpl; try done.
Qed.

Lemma before_attempt_quiet opt counter :
  invocations (before_attempt opt counter) = 0%nat.
Proof. unfold before_attempt. by destruct (1 <? counter). Qed.

(** What one pass adds to the trace. *)
Lemma pass_trace opt counter o t rest :
  invocations t = 0%nat -> delays t = [] ->
  invocations (before_attempt opt counter ++ EvInvoke o :: t ++ rest)
    = S (invocations rest)
  /\ delays (before_attempt opt counter ++ EvInvoke o :: t ++ rest)
    = (if 1 <? counter then [waitFor opt] else []) ++ delays rest
  /\ last_invocation (before_attempt opt counter ++ EvInvoke o :: t ++ rest)
    = match last_invocation rest with Some o' => Some o' | None => Some o end.
Proof.
  intros Hi Hd.
  change (EvInvoke o :: t ++ rest) with ([EvInvoke o] ++ t ++ rest).
  rewrite !invocations_app, !delays_app, !last_invocation_app.
  rewrite before_attempt_quiet, Hi, Hd, (last_invocation_quiet t Hi).
  split_and!; [done| |by destruct (last_invocation rest)].
  unfold before_attempt. by destruct (1 <? counter).
Qed.

Lemma retry_loop_bound action opt fuel : forall counter u,
  (invocations (trace_of (retry_loop action opt fuel counter u))
     <= Z.to_nat (maxRetry opt - counter))%nat.
Proof.
  induction fuel as [|fuel IH]; intros counter u; [apply Nat.le_0_l|].
  destruct (Z.lt_ge_cases counter (maxRetry opt)) as [Hlt|Hge];
    [|rewrite retry_loop_exit by done; apply Nat.le_0_l].
  destruct (retry_loop_pass action opt fuel counter u Hlt)
    as (t & Hi & Hd & _ & ->).
  pose proof (IH (counter + 1) (action u).2) as Hrest.
  destruct (decision opt (action u).1); unfold trace_of in *; cbn [snd].
  - destruct (pass_trace opt (counter + 1) (action u).1 t
                (retry_loop action opt fuel (counter + 1) (action u).2).2 Hi Hd)
      as (-> & _). lia.
  - destruct (pass_trace opt (counter + 1) (action u).1 t [] Hi Hd) as (Hp & _).
    rewrite app_nil_r in Hp. rewrite Hp. change (invocations []) with 0%nat. lia.
  - destruct (pass_trace opt (counter + 1) (action u).1 t [] Hi Hd) as (Hp & _).
    rewrite app_nil_r in Hp. rewrite Hp. change (invocations []) with 0%nat. lia.
Qed.

(** X1.  [retry] always completes, by a result or by an exception, and it
    never invokes the action more than [maxRetry] times (not at all when
    [maxRetry] is zero or negative). *)
Theorem X1_retry_completes_within_maxRetry action options u :
  (exists c, result_of (retry action options u) = Some c)
  /\ (invocations (trace_of (retry action options u))
        <= Z.to_nat (maxRetry (resolve_options options)))%nat.
Proof.
  split; [apply retry_total|].
  unfold retry. etrans; [apply retry_loop_bound|]. lia.
Qed.

Lemma retry_loop_delays action opt fuel : forall counter u,
  1 <= counter ->
  delays (trace_of (retry_loop action opt fuel counter u))
    = replicate (invocations (trace_of (retry_loop action opt fuel counter u)))
        (waitFor opt).
Proof.
  induction fuel as [|fuel IH]; intros counter u Hc; [done|].
  destruct (Z.lt_ge_cases counter (maxRetry opt)) as [Hlt|Hge];
    [|by rewrite retry_loop_exit].
  destruct (retry_loop_pass action opt fuel counter u Hlt)
    as (t & Hi & Hd & _ & ->).
  assert ((1 <? counter + 1) = true) as Hwait by (apply Z.ltb_lt; lia).
  assert (1 <= counter + 1) as Hnext by lia.
  pose proof (IH (counter + 1) (action u).2 Hnext) as Hrest.
  destruct (decision opt (action u).1); unfold trace_of in *; cbn [snd].
  - destruct (pass_trace opt (counter + 1) (action u).1 t
                (retry_loop action opt fuel (counter + 1) (action u).2).2 Hi Hd)
      as (-> & -> & _). rewrite Hwait, Hrest. done.
  - destruct (pass_trace opt (counter + 1) (action u).1 t [] Hi Hd) as (Hp & Hq & _).
    rewrite app_nil_r in Hp, Hq. by rewrite Hp, Hq, Hwait.
  - destruct (pass_trace opt (counter + 1) (action u).1 t [] Hi Hd) as (Hp & Hq & _).
    rewrite app_nil_r in Hp, Hq. by rewrite Hp, Hq, Hwait.
Qed.

(** X2.  [retry] does not wait before the first attempt and waits
    [waitFor] milliseconds before each later one: the waits of a call are
    as many as its invocations but one, each of [waitFor]. *)
Theorem X2_retry_waits_between_attempts action options u :
  let t := trace_of (retry action options u) in
  delays t = replicate (invocations t - 1) (waitFor (resolve_options options)).
Proof.
  cbv zeta. unfold retry. set (opt := resolve_options options).
  destruct (Z.lt_ge_cases 0 (maxRetry opt)) as [Hlt|Hge];
    [|by rewrite retry_loop_exit].
  destruct (retry_loop_pass action opt (Z.to_nat (maxRetry opt)) 0 u Hlt)
    as (t & Hi & Hd & _ & ->).
  assert (1 <= 0 + 1) as Hnext by lia.
  pose proof (retry_loop_delays action opt (Z.to_nat (maxRetry opt)) (0 + 1)
                (action u).2 Hnext) as Hrest.
  destruct (decision opt (action u).1); unfold trace_of in *; cbn [snd].
  - destruct (pass_trace opt (0 + 1) (action u).1 t
                (retry_loop action opt (Z.to_nat (maxRetry opt)) (0 + 1) (action u).2).2
                Hi Hd) as (-> & -> & _).
    rewrite Hrest. simpl. by rewrite Nat.sub_0_r.
  - destruct (pass_trace opt (0 + 1) (action u).1 t [] Hi Hd) as (Hp & Hq & _).
    rewrite app_nil_r in Hp, Hq. by rewrite Hp, Hq.
  - destruct (pass_trace opt (0 + 1) (action u).1 t [] Hi Hd) as (Hp & Hq & _).
    rewrite app_nil_r in Hp, Hq. by rewrite Hp, Hq.
Qed.

(** A loop in which every invocation ends with [continue]. *)
Lemma retry_loop_all_continue action opt :
  (forall u, decision opt (action u).1 = Continue) ->
  forall (k fuel : nat) counter u,
    Z.to_nat (maxRetry opt - counter) = k -> (k < fuel)%nat ->
    result_of (retry_loop action opt fuel counter u) = Some (Returned VUndefined)
    /\ invocations (trace_of (retry_loop action opt fuel counter u)) = k.
Proof.
  intros Hcont. induction k as [|k IH]; intros fuel counter u Hk Hfuel;
    (destruct fuel as [|fuel]; [lia|]).
  - by rewrite retry_loop_exit by lia.
  - destruct (retry_loop_pass action opt fuel counter u) as (t & Hi & Hd & _ & ->);
      [lia|].
    rewrite Hcont.
    destruct (IH fuel (counter + 1) (action u).2) as (Hr & Hinv); [lia..|].
    unfold result_of, trace_of in *. cbn [fst snd].
    destruct (pass_trace opt (counter + 1) (action u).1 t
                (retry_loop action opt fuel (counter + 1) (action u).2).2 Hi Hd)
      as (-> & _).
    by rewrite Hr, Hinv.
Qed.

(** X3.  A [RetryError] (or an instance of its subclass) is retried
    whatever the options say: an action that raises one at every
    invocation is invoked [maxRetry] times and [retry] returns
    [undefined], also with [retryOnAllErrors = false] and with a
    [shouldRetry] that answers no. *)
Theorem X3_RetryError_is_always_retried action options (n : nat) u :
  maxRetry (resolve_options options) = Z.of_nat n ->
  (forall u, exists err,
      (action u).1 = Rejected err /\ instanceof_RetryError err = true) ->
  result_of (retry action options u) = Some (Returned VUndefined)
  /\ invocations (trace_of (retry action options u)) = n.
Proof.
  intros Hn Hraise. unfold retry.
  apply retry_loop_all_continue; [|lia..].
  intros w. destruct (Hraise w) as (err & -> & Hkind).
  unfold decision, catch_decision. by rewrite Hkind, orb_true_r.
Qed.

(** An action whose first [k] invocations raise and whose next one
    resolves to [v]. *)
Lemma retry_loop_succeeds action opt v :
  retryOnAllErrors opt = true ->
  decision opt (Resolved v) = Return v ->
  forall (k fuel : nat) counter u,
    (forall i, (i < k)%nat -> exists err, (action (after action i u)).1 = Rejected err) ->
    (action (after action k u)).1 = Resolved v ->
    counter + Z.of_nat k < maxRetry opt -> (k < fuel)%nat ->
    result_of (retry_loop action opt fuel counter u) = Some (Returned v)
    /\ world_of (retry_loop action opt fuel counter u) = after action (S k) u
    /\ invocations (trace_of (retry_loop action opt fuel counter u)) = S k.
Proof.
  intros Hall Hv. induction k as [|k IH]; intros fuel counter u Hfail Hok Hlt Hfuel;
    (destruct fuel as [|fuel]; [lia|]);
    (destruct (retry_loop_pass action opt fuel counter u) as (t & Hi & Hd & _ & ->);
      [lia|]).
  - simpl in Hok. rewrite Hok, Hv. unfold result_of, world_of, trace_of. cbn [fst snd].
    destruct (pass_trace opt (counter + 1) (Resolved v) t [] Hi Hd) as (Hp & _).
    rewrite app_nil_r in Hp. by rewrite Hp.
  - destruct (Hfail 0%nat) as [err Herr]; [lia|]. simpl in Herr.
    rewrite Herr. unfold decision, catch_decision. rewrite Hall, orb_true_r. cbn [orb].
    destruct (IH fuel (counter + 1) (action u).2) as (Hr & Hw & Hinv); [|done|lia..|].
    { intros i Hi'. apply (Hfail (S i)). lia. }
    unfold result_of, world_of, trace_of in *. cbn [fst snd].
    destruct (pass_trace opt (counter + 1) (Rejected err) t
                (retry_loop action opt fuel (counter + 1) (action u).2).2 Hi Hd)
      as (-> & _).
    by rewrite Hr, Hw, Hinv.
Qed.

(** X4.  When the first [k] invocations of the action raise and the next
    one resolves to a value that is neither [undefined] nor an [Error],
    then, with [retryOnAllErrors = true], no objection of [shouldRetry] to
    that value and more than [k] attempts allowed, [retry] returns that
    value, unchanged, after exactly [k + 1] invocations, and leaves the
    world as the last of them left it. *)
Theorem X4_retry_returns_first_success action options (k : nat) u v :
  let opt := resolve_options options in
  retryOnAllErrors opt = true ->
  (forall f, shouldRetry opt = Some f -> f v = false) ->
  is_undefined v = false -> instanceof_Error v = false ->
  (forall i, (i < k)%nat -> exists err, (action (after action i u)).1 = Rejected err) ->
  (action (after action k u)).1 = Resolved v ->
  Z.of_nat k < maxRetry opt ->
  result_of (retry action options u) = Some (Returned v)
  /\ world_of (retry action options u) = after action (S k) u
  /\ invocations (trace_of (retry action options u)) = S k.
Proof.
  intros opt Hall Hf Hu He Hfail Hok Hlt. unfold retry. fold opt.
  apply retry_loop_succeeds; try done; [|lia..].
  unfold decision. rewrite He, Hu. cbn [andb].
  destruct (shouldRetry opt) as [f|] eqn:Hs; [|done]. by rewrite (Hf f).
Qed.

Lemma retry_loop_outcome action opt fuel : forall counter u,
  let r := retry_loop action opt fuel counter u in
  match result_of r with
  | Some (Thrown v) =>
      retryOnAllErrors opt = false /\ instanceof_RetryError v = false
      /\ (last_invocation (trace_of r) = Some (Rejected v)
          \/ last_invocation (trace_of r) = Some (Resolved v)
             /\ instanceof_Error v = true)
  | Some (Returned v) =>
      if is_undefined v
      then (retryOnUndefined opt = false
            /\ last_invocation (trace_of r) = Some (Resolved VUndefined))
           \/ invocations (trace_of r) = Z.to_nat (maxRetry opt - counter)
      else last_invocation (trace_of r) = Some (Resolved v)
           /\ instanceof_Error v = false
           /\ (forall f, shouldRetry opt = Some f -> f v = false)
  | None => True
  end.
Proof.
  induction fuel as [|fuel IH]; intros counter u; [done|]. cbv zeta.
  destruct (Z.lt_ge_cases counter (maxRetry opt)) as [Hlt|Hge].
  2: { rewrite retry_loop_exit by done. unfold result_of, trace_of.
       cbn [fst snd is_undefined]. right.
       change (invocations [_]) with 0%nat. lia. }
  destruct (retry_loop_pass action opt fuel counter u Hlt)
    as (t & Hi & Hd & _ & ->).
  destruct (decision opt (action u).1) as [|v|v] eqn:Hdec;
    unfold result_of, trace_of; cbn [fst snd].
  - specialize (IH (counter + 1) (action u).2). cbv zeta in IH.
    unfold result_of, trace_of in IH.
    destruct (pass_trace opt (counter + 1) (action u).1 t
                (retry_loop action opt fuel (counter + 1) (action u).2).2 Hi Hd)
      as (Hp & _ & Hl).
    rewrite Hp, Hl.
    destruct ((retry_loop action opt fuel (counter + 1) (action u).2).1.1)
      as [[v|v]|]; [| |done].
    + destruct (is_undefined v).
      * destruct IH as [[Hu ->]|Hinv]; [by left|]. right. rewrite Hinv. lia.
      * destruct IH as (-> & ?). done.
    + destruct IH as (? & ? & [-> | [-> ?]]); eauto.
  - destruct (pass_trace opt (counter + 1) (action u).1 t [] Hi Hd) as (_ & _ & Hl).
    rewrite app_nil_r in Hl. rewrite Hl. cbn.
    unfold decision, catch_decision in Hdec.
    destruct (action u).1 as [result|err]; [|by repeat case_match].
    destruct (shouldRetry opt) as [f|] eqn:Hs.
    + destruct (f result) eqn:Hfr; [done|].
      destruct (instanceof_Error result) eqn:He; [by repeat case_match|].
      destruct (is_undefined result) eqn:Hu; cbn in Hdec.
      * destruct (retryOnUndefined opt) eqn:Hr; [done|].
        injection Hdec as <-. rewrite Hu. left. by destruct result.
      * injection Hdec as <-. rewrite Hu. split_and!; [done..|].
        by intros ? [= <-].
    + destruct (instanceof_Error result) eqn:He; [by repeat case_match|].
      destruct (is_undefined result) eqn:Hu; cbn in Hdec.
      * destruct (retryOnUndefined opt) eqn:Hr; [done|].
        injection Hdec as <-. rewrite Hu. left. by destruct result.
      * injection Hdec as <-. by rewrite Hu.
  - destruct (pass_trace opt (counter + 1) (action u).1 t [] Hi Hd) as (_ & _ & Hl).
    rewrite app_nil_r in Hl. rewrite Hl. cbn.
    assert (forall e, catch_decision opt e = Throw v ->
              e = v /\ retryOnAllErrors opt = false
              /\ instanceof_RetryError v = false) as Hcatch.
    { unfold catch_decision. intros e He.
      destruct (retryOnAllErrors opt); [by rewrite orb_true_r in He|].
      destruct (instanceof_RetryError e) eqn:Hk; [by rewrite orb_true_r in He|].
      case_match; [done|]. by injection He as <-. }
    unfold decision in Hdec.
    destruct (action u).1 as [result|err].
    + repeat case_match; try done;
        destruct (Hcatch _ Hdec) as (-> & ? & ?); eauto 10.
    + destruct (Hcatch _ Hdec) as (-> & ? & ?); eauto.
Qed.

(** X5.  [retry] raises only with [retryOnAllErrors = false], and what it
    raises is the value its last invocation of the action rejected with,
    or resolved to when that value is an [Error]; it is never a
    [RetryError]. *)
Theorem X5_retry_raises_only_what_the_action_gave action options u v :
  result_of (retry action options u) = Some (Thrown v) ->
  retryOnAllErrors (resolve_options options) = false
  /\ instanceof_RetryError v = false
  /\ (last_invocation (trace_of (retry action options u)) = Some (Rejected v)
      \/ last_invocation (trace_of (retry action options u)) = Some (Resolved v)
         /\ instanceof_Error v = true).
Proof.
  intros Hr. unfold retry in *.
  pose proof (retry_loop_outcome action (resolve_options options)
                (S (Z.to_nat (maxRetry (resolve_options options)))) 0 u) as Ho.
  cbv zeta in Ho. by rewrite Hr in Ho.
Qed.

(** X6.  A value other than [undefined] that [retry] returns is the one
    its last invocation of the action resolved to; it is not an [Error],
    and [shouldRetry], when given, answered no on it.  When [retry] returns
    [undefined], either the last invocation resolved to [undefined] under
    [retryOnUndefined = false], or the action was invoked all the
    [maxRetry] times allowed: the caller cannot tell the two apart. *)
Theorem X6_retry_returns_the_last_result action options u v :
  result_of (retry action options u) = Some (Returned v) ->
  let t := trace_of (retry action options u) in
  let opt := resolve_options options in
  if is_undefined v
  then (retryOnUndefined opt = false
        /\ last_invocation t = Some (Resolved VUndefined))
       \/ invocations t = Z.to_nat (maxRetry opt)
  else last_invocation t = Some (Resolved v)
       /\ instanceof_Error v = false
       /\ (forall f, shouldRetry opt = Some f -> f v = false).
Proof.
  intros Hr. cbv zeta. unfold retry in *.
  pose proof (retry_loop_outcome action (resolve_options options)
                (S (Z.to_nat (maxRetry (resolve_options options)))) 0 u) as Ho.
  cbv zeta in Ho. rewrite Hr in Ho. by rewrite Z.sub_0_r in Ho.
Qed.

(** X7.  With [maxRetry] zero or negative, [retry] returns [undefined]
    without invoking the action, without waiting and without changing the
    world. *)
Theorem X7_retry_without_attempts action options u :
  maxRetry (resolve_options options) <= 0 ->
  result_of (retry action options u) = Some (Returned VUndefined)
  /\ world_of (retry action options u) = u
  /\ invocations (trace_of (retry action options u)) = 0%nat
  /\ delays (trace_of (retry action options u)) = [].
Proof. intros Hle. by rewrite retry_no_attempt. Qed.

End RetryMore.

Section CreateErrorFacts.

Lemma string_app_empty (s : string) : s +:+ "" = s.
Proof.
  induction s as [|c s IH]; [done|].
  change (String c (s +:+ "") = String c s). by rewrite IH.
Qed.

Lemma createError_prefix (msg : string) (x : value) :
  exists rest, err_message (createError (VStr msg) x) = msg +:+ rest.
Proof.
  unfold createError.
  destruct x; cbn; try (by exists ""; rewrite string_app_empty);
    destruct (ends_with_colon msg); cbn;
    try (by exists ""; rewrite string_app_empty); by eexists.
Qed.

(** X8.  [createError] hands back an [Error] given as the message as it is,
    whatever the second argument; for a message that is a string, the new
    error's message begins with that string, and an [Error] given as the
    second argument is never lost: it is the cause of the new error, whose
    message ends with the message of the cause exactly when the given one
    ends with a colon. *)
Theorem X8_createError_keeps_the_original (msg : string) (e : JS.error) (x : value) :
  createError (VErr e) x = e
  /\ createError (VErr (createError (VStr msg) x)) x = createError (VStr msg) x
  /\ (exists rest, err_message (createError (VStr msg) x) = msg +:+ rest)
  /\ err_cause (createError (VStr msg) (VErr e)) = VErr e
  /\ err_message (createError (VStr msg) (VErr e)) =
       (if ends_with_colon msg then msg +:+ " " +:+ err_message e else msg).
Proof.
  split_and!.
  - reflexivity.
  - reflexivity.
  - apply createError_prefix.
  - cbn. by destruct (ends_with_colon msg).
  - cbn. by destruct (ends_with_colon msg).
Qed.

End CreateErrorFacts.

Section HostFacts.
Context {U : Type}.
Variable resolve : string -> U -> dns_answer * U.

Lemma retry_loop_invoked (action : U -> outcome * U) opt fuel : forall counter u o,
  last_invocation (trace_of (retry_loop action opt fuel counter u)) = Some o ->
  exists w, o = (action w).1.
Proof.
  induction fuel as [|fuel IH]; intros counter u o; [done|].
  destruct (Z.lt_ge_cases counter (maxRetry opt)) as [Hlt|Hge];
    [|by rewrite retry_loop_exit].
  destruct (retry_loop_pass action opt fuel counter u Hlt)
    as (t & Hi & Hd & _ & ->).
  destruct (decision opt (action u).1); unfold trace_of; cbn [snd].
  - destruct (pass_trace opt (counter + 1) (action u).1 t
                (retry_loop action opt fuel (counter + 1) (action u).2).2 Hi Hd)
      as (_ & _ & ->).
    destruct (last_invocation _) as [o'|] eqn:Hl.
    + intros [= <-]. by eapply IH.
    + intros [= <-]. by eexists.
  - destruct (pass_trace opt (counter + 1) (action u).1 t [] Hi Hd) as (_ & _ & Hl).
    rewrite app_nil_r in Hl. rewrite Hl. intros [= <-]. by eexists.
  - destruct (pass_trace opt (counter + 1) (action u).1 t [] Hi Hd) as (_ & _ & Hl).
    rewrite app_nil_r in Hl. rewrite Hl. intros [= <-]. by eexists.
Qed.

Lemma lookups_retry (t : list Helper.event) :
  lookups (HostRetry <$> t) = invocations t.
Proof.
  unfold lookups. f_equal. induction t as [|e t IH]; [done|]. cbn. by rewrite IH.
Qed.

Lemma lookup_answers hostname u :
  (exists b, (dns_lookup resolve hostname u).1 = Resolved (VBool b))
  \/ (exists err, (dns_lookup resolve hostname u).1 = Rejected err).
Proof.
  unfold dns_lookup. destruct (resolve hostname u) as [[resp|code err] u'].
  - left. by eexists.
  - case_bool_decide; [left|right]; by eexists.
Qed.

(** X9.  [checkIfHostResolves] never raises: it returns a boolean after at
    most three lookups of the host name (the string given, or the
    [hostname] of the URL given) and logs no error.  When the first lookup
    answers, it decides: addresses give true when there is at least one,
    [ENOTFOUND] gives false, each after that single lookup.  When every
    lookup fails otherwise, the result is false after three lookups. *)
Theorem X9_checkIfHostResolves_never_raises (input : string + URL) u :
  let run := checkIfHostResolves resolve input u in
  let first := (resolve (host_of input) u).1 in
  (exists b, result_of run = Some (Returned (VBool b)))
  /\ (lookups (trace_of run) <= 3)%nat
  /\ (forall text, HostLogError text ∉ trace_of run)
  /\ match first with
     | DnsAddresses resp =>
         result_of run = Some (Returned (VBool (bool_decide (0 < length resp)%nat)))
         /\ lookups (trace_of run) = 1%nat
     | DnsFailure code err =>
         code = Some "ENOTFOUND" ->
         result_of run = Some (Returned (VBool false))
         /\ lookups (trace_of run) = 1%nat
     end
  /\ ((forall w, exists code err,
         (resolve (host_of input) w).1 = DnsFailure code err
         /\ code <> Some "ENOTFOUND") ->
      result_of run = Some (Returned (VBool false))
      /\ lookups (trace_of run) = 3%nat).
Proof.
  cbv zeta. unfold checkIfHostResolves. fold (host_of input).
  set (action := dns_lookup resolve (host_of input)).
  pose proof (retry_total action retryOptions u) as [c Hc].
  pose proof (X := retry_loop_outcome action (resolve_options retryOptions)
                     (S (Z.to_nat (maxRetry (resolve_options retryOptions)))) 0 u).
  pose proof (Hbound := retry_loop_bound action (resolve_options retryOptions)
                     (S (Z.to_nat (maxRetry (resolve_options retryOptions)))) 0 u).
  pose proof (Hinv := retry_loop_invoked action (resolve_options retryOptions)
                     (S (Z.to_nat (maxRetry (resolve_options retryOptions)))) 0 u).
  cbv zeta in X. fold (retry action retryOptions u) in X, Hbound, Hinv.
  assert (Hfirst : forall v,
    (action u).1 = Resolved (VBool v) ->
    result_of (retry action retryOptions u) = Some (Returned (VBool v))
    /\ invocations (trace_of (retry action retryOptions u)) = 1%nat).
  { intros v Hv.
    destruct (retry_loop_succeeds action (resolve_options retryOptions) (VBool v)
                eq_refl eq_refl 0 4 0 u) as (? & _ & ?); [intros; lia|done|done|lia|done]. }
  unfold result_of, trace_of in *.
  destruct (retry action retryOptions u) as [[r u'] t] eqn:Hrun. cbn [fst snd] in *.
  subst r.
  assert (Hresult : exists b,
    match c with
    | Returned output =>
        Some (Returned match output with
                       | VUndefined | VNull => VBool false
                       | _ => output
                       end) = Some (Returned (VBool b))
    | Thrown _ => False
    end).
  { destruct c as [v|v]; [|by destruct X].
    destruct (is_undefined v) eqn:Hu.
    - destruct v; try done. by exists false.
    - destruct X as (Hl & _). destruct (Hinv _ Hl) as [w Hw].
      unfold action in Hw.
      destruct (lookup_answers (host_of input) w) as [[b Hb]|[err He]];
        [|congruence].
      rewrite Hb in Hw. injection Hw as ->. by exists b. }
  destruct c as [output|err]; [|by destruct Hresult]. cbn [fst snd].
  rewrite lookups_retry.
  split_and!.
  - done.
  - etrans; [exact Hbound|]. done.
  - intros text Hin. apply list_elem_of_fmap in Hin as (? & ? & ?). done.
  - unfold action, dns_lookup in Hfirst.
    destruct (resolve (host_of input) u) as [[resp|code err] u1]; cbn [fst] in *.
    + destruct (Hfirst _ eq_refl) as [[= ->] ->]. done.
    + intros ->. rewrite bool_decide_eq_true_2 in Hfirst by done.
      destruct (Hfirst _ eq_refl) as [[= ->] ->]. done.
  - intros Hfail.
    assert (always_raises action) as Hraise.
    { intros w. destruct (Hfail w) as (code & err & Hr & Hne).
      unfold action, dns_lookup. destruct (resolve (host_of input) w) as [a w'].
      cbn in Hr. subst a. rewrite bool_decide_eq_false_2 by done. by eexists. }
    destruct (retry_loop_all_raise action (resolve_options retryOptions)
                eq_refl Hraise 3 4 0 u) as (u2 & t2 & Hloop & Hn); [done|lia|].
    change (retry action retryOptions u = (Some (Returned VUndefined), u2, t2))
      in Hloop.
    rewrite Hrun in Hloop.
    injection Hloop as -> -> ->. done.
Qed.

End HostFacts.

Section FetcherFacts.
Context {U : Type}.
Variable fetch : string + URL -> gmap string string -> U -> fetch_answer * U.
Variable FP8_FETCH_TOKEN : option string.

(** X10.  [fetcher] makes a single call of [fetch], on the URL it was
    given, with these headers: the caller's [User-Agent], or else
    ['@farport/gcutils']; the caller's [Authorization], which is never
    replaced, or else, when the variable [FP8_FETCH_TOKEN] is set and not
    empty, the bearer token made of it, or else none; and every other
    header of the caller, and no other. *)
Theorem X10_fetcher_request_headers (url : string + URL)
    (headers : option (gmap string string)) u :
  let given := default ∅ headers in
  let h := headersToUse FP8_FETCH_TOKEN headers in
  trace_of (fetcher fetch FP8_FETCH_TOKEN url headers u) = [EvFetch url h]
  /\ h !! "User-Agent" = Some (default "@farport/gcutils" (given !! "User-Agent"))
  /\ h !! "Authorization" =
       match given !! "Authorization" with
       | Some a => Some a
       | None => (fun token => "Bearer " +:+ token) <$> PubSub.truthy FP8_FETCH_TOKEN
       end
  /\ (forall key, key <> "User-Agent" -> key <> "Authorization" ->
        h !! key = given !! key).
Proof.
  cbv zeta. split.
  { unfold fetcher. by destruct (fetch _ _ _). }
  unfold headersToUse.
  assert (headers ≫= (fun h => h !! "Authorization")
          = default ∅ headers !! "Authorization") as ->.
  { by destruct headers. }
  set (given := default ∅ headers).
  assert (forall key,
    (given ∪ {[ "User-Agent" := "@farport/gcutils" ]}) !! key =
      match given !! key with
      | Some x => Some x
      | None => if bool_decide (key = "User-Agent")
                then Some "@farport/gcutils" else None
      end) as Hmerged.
  { intros key. rewrite lookup_union.
    destruct (given !! key) as [x|]; cbn.
    - by destruct (_ !! key).
    - case_bool_decide as Hk.
      + subst key. by rewrite lookup_singleton_eq.
      + by rewrite lookup_singleton_ne. }
  destruct (given !! "Authorization") as [a|] eqn:Hauth;
    [|destruct (PubSub.truthy FP8_FETCH_TOKEN) as [token|]]; cbn.
  - split_and!.
    + rewrite Hmerged. by destruct (given !! "User-Agent").
    + by rewrite Hmerged, Hauth.
    + intros key H1 H2. rewrite Hmerged.
      destruct (given !! key); [done|]. by rewrite bool_decide_eq_false_2.
  - split_and!.
    + rewrite lookup_insert_ne by done. rewrite Hmerged.
      by destruct (given !! "User-Agent").
    + by rewrite lookup_insert_eq.
    + intros key H1 H2. rewrite lookup_insert_ne by done. rewrite Hmerged.
      destruct (given !! key); [done|]. by rewrite bool_decide_eq_false_2.
  - split_and!.
    + rewrite Hmerged. by destruct (given !! "User-Agent").
    + by rewrite Hmerged, Hauth.
    + intros key H1 H2. rewrite Hmerged.
      destruct (given !! key); [done|]. by rewrite bool_decide_eq_false_2.
Qed.

(** X11.  [fetcher] returns the text of the response exactly when [fetch]
    answers with [ok] and the text can be read.  Every failure is raised
    as a new [Error] whose message begins with ['Fetch failed:']: for a
    response that is not [ok], the status and the text follow; for an
    [Error] raised by [fetch] or by reading the text, its message follows
    and it is the cause. *)
Theorem X11_fetcher_result (url : string + URL)
    (headers : option (gmap string string)) u :
  let run := fetcher fetch FP8_FETCH_TOKEN url headers u in
  let answer := (fetch url (headersToUse FP8_FETCH_TOKEN headers) u).1 in
  world_of run = (fetch url (headersToUse FP8_FETCH_TOKEN headers) u).2
  /\ (forall text, result_of run = Returned (VStr text) <->
        exists status, answer = FetchResponse true status (inl text))
  /\ (forall v, result_of run = Returned v -> exists text, v = VStr text)
  /\ (forall v, result_of run = Thrown v ->
        exists e rest, v = VErr e /\ err_message e = "Fetch failed:" +:+ rest)
  /\ (forall status text, answer = FetchResponse false status (inl text) ->
        exists e, result_of run = Thrown (VErr e)
          /\ err_message e = "Fetch failed: Fetch error status " +:+ pretty status
                               +:+ ": " +:+ text)
  /\ (forall e0, (answer = FetchRejected (VErr e0)
                  \/ exists ok status, answer = FetchResponse ok status (inr (VErr e0))) ->
        exists e, result_of run = Thrown (VErr e)
          /\ err_message e = "Fetch failed: " +:+ err_message e0
          /\ err_cause e = VErr e0).
Proof.
  cbv zeta. unfold fetcher, result_of, world_of.
  destruct (fetch url (headersToUse FP8_FETCH_TOKEN headers) u)
    as [[err|ok status [text|err]] u'] eqn:Hf; cbn [fst snd].
  - split_and!; try done.
    + intros text. split; [done|]. by intros [? ?].
    + intros v ?. simplify_eq.
      destruct (createError_prefix "Fetch failed:" err) as [rest Hr]. by eexists _, _.
    + intros e0 [?|(? & ? & ?)]; simplify_eq. by eexists.
  - destruct ok.
    + split_and!; try done.
      * intros t. split; [intros ?; simplify_eq; by eexists|].
        intros [? ?]. by simplify_eq.
      * intros v ?. simplify_eq. by eexists.
      * intros e0 [?|(? & ? & ?)]; done.
    + split_and!; try done.
      * intros t. split; [done|]. by intros [? ?].
      * intros v ?. simplify_eq. by eexists _, _.
      * intros ?? ?. simplify_eq. by eexists.
      * intros e0 [?|(? & ? & ?)]; done.
  - split_and!; try done.
    + intros t. split; [done|]. by intros [? ?].
    + intros v ?. simplify_eq.
      destruct (createError_prefix "Fetch failed:" err) as [rest Hr]. by eexists _, _.
    + intros e0 [?|(? & ? & ?)]; simplify_eq. by eexists.
Qed.

End FetcherFacts.

(** * Further properties of the Pub/Sub layer *)

Import Provisioning.

Section OptionsFacts.

(** X12.  The call options [generateCallOptions] returns always have a
    [retry] setting: the caller's when there is one, in which case the
    options are returned as they are, and else the default one, the other
    fields being kept.  Applying the function to its own result changes
    nothing. *)
Theorem X12_generateCallOptions_sets_retry_once (options : option CallOptions) :
  let given := default {| co_retry := None; co_other := ∅ |} options in
  let result := generateCallOptions options in
  co_retry result = Some (default publishRetrySetting (co_retry given))
  /\ co_other result = co_other given
  /\ (is_Some (co_retry given) -> result = given)
  /\ generateCallOptions (Some result) = result.
Proof.
  cbv zeta. unfold generateCallOptions.
  destruct options as [[[r|] other]|]; cbn; split_and!; try done.
  all: by intros [? ?].
Qed.

(** X13.  The options [generateCreateSubscriptionOptions] returns always
    have a retry policy and call options: the caller's, kept as they are
    (call options of the caller are not given a [retry] setting), or else
    a backoff from 1 to 60 seconds and the default call options with
    their [retry] setting; the other fields are kept, and applying the
    function to its own result changes nothing. *)
Theorem X13_generateCreateSubscriptionOptions_defaults
    (options : option CreateSubscriptionOptions) :
  let given :=
    default {| retryPolicy := None; cso_gaxOpts := None; cso_other := ∅ |} options in
  let result := generateCreateSubscriptionOptions options in
  retryPolicy result = Some (default default_retryPolicy (retryPolicy given))
  /\ cso_gaxOpts result =
       Some (default {| co_retry := Some publishRetrySetting; co_other := ∅ |}
               (cso_gaxOpts given))
  /\ cso_other result = cso_other given
  /\ generateCreateSubscriptionOptions (Some result) = result.
Proof.
  cbv zeta. unfold generateCreateSubscriptionOptions.
  by destruct options as [[[p|] [g|] other]|].
Qed.

End OptionsFacts.

Section TopicFacts.
Context {U : Type} `{Transport U}.

Lemma generateCallOptions_idem (g : option CallOptions) :
  generateCallOptions (Some (generateCallOptions g)) = generateCallOptions g.
Proof. unfold generateCallOptions. by destruct g as [[[r|] other]|]. Qed.

(** The call options [createTopic] creates with, after [getTopic] has
    stored the generated ones into the caller's object. *)
Lemma createTopic_callOptions (options : option PublishOptions) :
  generateCallOptions ((with_gaxOpts <$> options) ≫= gaxOpts)
  = generateCallOptions (options ≫= gaxOpts).
Proof. destruct options as [o|]; [|done]. cbn. apply generateCallOptions_idem. Qed.

(** X14.  [createTopic] probes first, and calls the transport's create at
    most once, exactly when the probe answers that the topic is absent;
    that call is for the name given and carries call options with a
    [retry] setting, the caller's when the caller gave one.  A failure of
    the probe or of the create is returned as it is; after a failure of
    the probe nothing else is called. *)
Theorem X14_createTopic_probes_then_creates topicName options (u : U) :
  let run := createTopic topicName options u in
  let topic := getTopic topicName options in
  let probe := topic_exists topic u in
  let callOptions := generateCallOptions (options ≫= gaxOpts) in
  let calls := filter (fun e => is_transport e = true) (trace_of run) in
  is_Some (co_retry callOptions)
  /\ (forall r, (options ≫= gaxOpts) ≫= co_retry = Some r ->
        co_retry callOptions = Some r)
  /\ match probe.1 with
     | TFail e =>
         result_of run = TFail e /\ calls = [EvTopicExists topic]
         /\ world_of run = probe.2
     | TOk true =>
         result_of run = TOk topic /\ calls = [EvTopicExists topic]
         /\ world_of run = probe.2
     | TOk false =>
         let created := client_createTopic topicName callOptions probe.2 in
         calls = [EvTopicExists topic; EvCreateTopic topicName callOptions]
         /\ world_of run = created.2
         /\ match created.1 with
            | TFail e => result_of run = TFail e
            | TOk newTopic =>
                exists t, result_of run = TOk t
                  /\ topic_name t = topic_name newTopic
                  /\ topic_options t =
                       match options with
                       | Some o => Some (with_gaxOpts o)
                       | None => topic_options newTopic
                       end
            end
     end.
Proof.
  cbv zeta. split_and!.
  - unfold generateCallOptions. by repeat case_match.
  - intros r Hr. unfold generateCallOptions.
    destruct options as [[[[[r'|] ?]|] ?]|]; cbn in *; by simplify_eq.
  - unfold createTopic, transport, logger, result_of, world_of, trace_of.
    rewrite createTopic_callOptions.
    unfold mbind, M_bind, mret, M_ret, emit.
    destruct (topic_exists _ u) as [[[]|e] u1]; cbn [fst snd]; [done| |done].
    destruct (client_createTopic _ _ u1) as [[newTopic|e] u2]; cbn [fst snd];
      [|done].
    split_and!; [done..|]. destruct options; by eexists.
Qed.

End TopicFacts.

Section SubscriptionFacts.
Context {U : Type} `{Transport U} `{SubscriptionTransport U}.

(** X15.  [createSubscription] probes the subscription handle first.  When
    the subscription exists it returns that handle and calls nothing else:
    the create options are not used.  When it is absent it calls the
    topic's create once, with the options of
    [generateCreateSubscriptionOptions], which always carry a retry policy
    (the caller's, or a backoff from 1 to 60 seconds), and sets the
    subscription options on the new handle only when some were given.  A
    failure of the probe or of the create is returned as it is, and no
    call follows it. *)
Theorem X15_createSubscription_probes_then_creates topic subscriptionName
    options subscriptionOptions (u : U) :
  let run := createSubscription topic subscriptionName options subscriptionOptions u in
  let sub := getSubscription topic subscriptionName subscriptionOptions in
  let probe := sub_exists sub u in
  let createOpts := generateCreateSubscriptionOptions options in
  is_Some (retryPolicy createOpts)
  /\ (forall p, options ≫= retryPolicy = Some p -> retryPolicy createOpts = Some p)
  /\ (options ≫= retryPolicy = None ->
        retryPolicy createOpts = Some default_retryPolicy)
  /\ match probe.1 with
     | TFail e =>
         result_of run = TFail e /\ world_of run = probe.2
         /\ transport_calls (trace_of run) = [Ev (EvSubExists sub)]
     | TOk true =>
         result_of run = TOk sub /\ world_of run = probe.2
         /\ transport_calls (trace_of run) = [Ev (EvSubExists sub)]
     | TOk false =>
         let created := topic_createSubscription topic subscriptionName createOpts probe.2 in
         match created.1 with
         | TFail e =>
             result_of run = TFail e /\ world_of run = created.2
             /\ transport_calls (trace_of run) =
                  [Ev (EvSubExists sub);
                   EvCreateSubscription topic subscriptionName createOpts]
         | TOk newSub =>
             result_of run = TOk newSub
             /\ world_of run =
                  match subscriptionOptions with
                  | Some o => sub_setOptions newSub o created.2
                  | None => created.2
                  end
             /\ transport_calls (trace_of run) =
                  [Ev (EvSubExists sub);
                   EvCreateSubscription topic subscriptionName createOpts]
                  ++ match subscriptionOptions with
                     | Some o => [EvSetOptions newSub o]
                     | None => []
                     end
         end
     end.
Proof.
  cbv zeta. split_and!.
  - unfold generateCreateSubscriptionOptions. by repeat case_match.
  - intros p Hp. unfold generateCreateSubscriptionOptions.
    destruct options as [[[p'|] [g|] other]|]; cbn in *; by simplify_eq.
  - intros Hp. unfold generateCreateSubscriptionOptions.
    destruct options as [[[p'|] [g|] other]|]; cbn in *; by simplify_eq.
  - unfold createSubscription, base, transport_call, transport, logger, transport_calls,
      result_of, world_of, trace_of.
    unfold mbind, M_bind, mret, M_ret, emit.
    destruct (sub_exists _ u) as [[[]|e] u1]; cbn [fst snd]; [done| |done].
    destruct (topic_createSubscription _ _ _ u1) as [[newSub|e] u2];
      cbn [fst snd]; [|done].
    by destruct subscriptionOptions.
Qed.

(** X16.  [createPublisher] and [createSubscriber] on a [Topic] handle use
    that handle as it is and do not call [createTopic]; on a topic name
    they first run [createTopic].  When that fails, the failure is
    returned and, for a subscriber, no call about the subscription is
    made.  A subscriber that is returned is open and bound to the handle
    [createSubscription] gave. *)
Theorem X16_publishers_and_subscribers topic subscriptionName options topicOptions (u : U) :
  let resolved :=
    match topic with
    | inl name => createTopic name topicOptions u
    | inr t => (TOk t, u, [])
    end in
  let made := createPublisher topic topicOptions u in
  let run := createSubscriber topic subscriptionName options topicOptions u in
  world_of made = world_of resolved /\ trace_of made = trace_of resolved
  /\ match result_of resolved with
     | TFail e =>
         result_of made = TFail e
         /\ result_of run = TFail e
         /\ world_of run = world_of resolved
         /\ trace_of run = Ev <$> trace_of resolved
     | TOk t =>
         let subscribed :=
           createSubscription t subscriptionName options None (world_of resolved) in
         result_of made = TOk {| Pstore.topic := t |}
         /\ world_of run = world_of subscribed
         /\ trace_of run = (Ev <$> trace_of resolved) ++ trace_of subscribed
         /\ match result_of subscribed with
            | TFail e => result_of run = TFail e
            | TOk sub =>
                result_of run
                  = TOk {| subscriberClosed := false; subscription := sub |}
            end
     end.
Proof.
  cbv zeta. unfold createPublisher, createSubscriber, base,
    result_of, world_of, trace_of.
  unfold mbind, M_bind, mret, M_ret.
  destruct topic as [name|t]; cbn [fst snd].
  - destruct (createTopic name topicOptions u) as [[[t|e] u1] t1]; cbn [fst snd].
    + rewrite app_nil_r.
      destruct (createSubscription t subscriptionName options None u1)
        as [[[sub|e] u2] t2]; cbn [fst snd]; by rewrite ?app_nil_r.
    + by rewrite !app_nil_r.
  - destruct (createSubscription t subscriptionName options None u)
      as [[[sub|e] u2] t2]; cbn [fst snd]; by rewrite ?app_nil_r.
Qed.

End SubscriptionFacts.

Section SubscriberFacts.
Context {U : Type} `{Transport U}.
Implicit Types (this : Subscriber) (u : U).

(** X17.  On a [Subscriber] that is not closed, [listen] first probes the
    subscription.  When the probe fails, its error is raised; when the
    subscription does not exist, an error saying so is raised; in both
    cases nothing is installed.  When it exists, [listen] registers a
    listener for ['message'], ['error'], ['debug'] and ['close'], in this
    order, and returns.  In every case the [Subscriber] stays as it was, so
    nothing prevents a second [listen] from registering listeners again. *)
Theorem X17_listen_on_open_subscriber mh eh this u :
  subscriberClosed this = false ->
  let run := listen mh eh this u in
  let sub := subscription this in
  (result_of run).2 = this
  /\ match (sub_exists sub u).1 with
     | TFail e =>
         (result_of run).1 = Thrown e /\ trace_of run = [EvSubExists sub]
     | TOk false =>
         (result_of run).1
           = Thrown (new_Error ("Subscriber " +:+ sub_name sub +:+ " does not exist"))
         /\ trace_of run = [EvSubExists sub]
     | TOk true =>
         (result_of run).1 = Returned VUndefined
         /\ trace_of run = [EvSubExists sub; EvOn sub "message"; EvOn sub "error";
                            EvOn sub "debug"; EvOn sub "close"]
     end.
Proof.
  intros Hopen. cbv zeta. split; [apply listen_keeps|].
  unfold listen, setupSubscriptionWithHandlers, on, transport,
    result_of, trace_of.
  rewrite Hopen. unfold mbind, M_bind, mret, M_ret.
  by destruct (sub_exists (subscription this) u) as [[[]|e] u1].
Qed.

(** X18.  [close] removes all listeners, then closes the subscription on
    the transport, and makes no other call.  When the transport's close
    succeeds the [Subscriber] is marked closed; when it fails, its error is
    raised and the [Subscriber] is left as it was, although its listeners
    are gone: an open one stays open, and [listen] on it still goes to the
    probe. *)
Theorem X18_close_marks_closed_only_on_success this u :
  let run := close this u in
  let sub := subscription this in
  let removed := sub_removeAllListeners sub u in
  trace_of run = [EvRemoveAllListeners sub; EvSubClose sub]
  /\ world_of run = (sub_close sub removed).2
  /\ match (sub_close sub removed).1 with
     | TOk _ =>
         result_of run
           = (Returned VUndefined, {| subscriberClosed := true; subscription := sub |})
     | TFail e =>
         result_of run = (Thrown e, this)
         /\ (subscriberClosed this = false ->
             forall mh eh,
               exists rest,
                 trace_of (listen mh eh (result_of run).2 (world_of run))
                   = EvSubExists sub :: rest)
     end.
Proof.
  cbv zeta. unfold close, removeAllListeners, transport, result_of, world_of, trace_of.
  unfold mbind, M_bind, mret, M_ret.
  destruct (sub_close (subscription this)
              (sub_removeAllListeners (subscription this) u))
    as [[[]|e] u1]; cbn [fst snd]; [by split_and!|].
  split_and!; try reflexivity. intros Hopen mh eh.
  unfold listen, setupSubscriptionWithHandlers, on, transport.
  rewrite Hopen. unfold mbind, M_bind, mret, M_ret.
  destruct (sub_exists (subscription this) u1) as [[[]|?] ?]; by eexists.
Qed.

(** X19.  [delete] closes the [Subscriber] first when it is not closed
    yet, and not again when it is; it then probes the subscription and
    deletes it on the transport only when the probe says it exists.  When
    the close fails, its error is raised and neither the probe nor the
    delete is made.  Once the close has succeeded the [Subscriber] is
    closed, also when the probe or the delete then fails. *)
Theorem X19_delete_closes_probes_deletes this u :
  let run := delete this u in
  let sub := subscription this in
  let closing :=
    if subscriberClosed this then (Returned VUndefined, this, u, [])
    else close this u in
  match (result_of closing).1 with
  | Thrown e =>
      result_of run = (Thrown e, this)
      /\ subscriberClosed this = false
      /\ trace_of run = [EvRemoveAllListeners sub; EvSubClose sub]
  | Returned _ =>
      let probe := sub_exists sub (world_of closing) in
      subscriberClosed (result_of run).2 = true
      /\ subscription (result_of run).2 = sub
      /\ match probe.1 with
         | TFail e =>
             (result_of run).1 = Thrown e
             /\ trace_of run = trace_of closing ++ [EvSubExists sub]
         | TOk false =>
             (result_of run).1 = Returned VUndefined
             /\ trace_of run = trace_of closing ++ [EvSubExists sub]
         | TOk true =>
             trace_of run = trace_of closing ++ [EvSubExists sub; EvSubDelete sub]
             /\ (result_of run).1 =
                  match (sub_delete sub probe.2).1 with
                  | TOk _ => Returned VUndefined
                  | TFail e => Thrown e
                  end
         end
      /\ trace_of closing =
           (if subscriberClosed this then []
            else [EvRemoveAllListeners sub; EvSubClose sub])
  end.
Proof.
  cbv zeta. unfold delete.
  destruct (subscriberClosed this) eqn:Hclosed; cbn [negb].
  - unfold transport, result_of, world_of, trace_of.
    unfold mbind, M_bind, mret, M_ret. cbn [fst snd].
    destruct (sub_exists _ u) as [[[]|e] u1]; cbn [fst snd];
      [destruct (sub_delete _ u1) as [[[]|e] u2]|..]; cbn [fst snd]; by rewrite Hclosed.
  - unfold close, removeAllListeners, transport, result_of, world_of, trace_of.
    unfold mbind, M_bind, mret, M_ret. cbn [fst snd].
    destruct (sub_close (subscription this)
                (sub_removeAllListeners (subscription this) u))
      as [[[]|e] u1]; cbn [fst snd]; [|done].
    destruct (sub_exists _ u1) as [[[]|e] u2]; cbn [fst snd];
      [destruct (sub_delete _ u2) as [[[]|e] u3]|..]; by cbn [fst snd].
Qed.

End SubscriberFacts.

Section JsonFacts.
Context {U : Type} `{Transport U}.

(** The handler of [listenJson] on a message whose data parses: the
    warning about the content type, the call of the handler, and the
    [catch] clause when that call throws. *)
Lemma jsonMessageHandler_parsed this messageHandler m u j :
  JSON_parse (msg_data m) = inl j ->
  jsonMessageHandler this messageHandler m u =
    let warning :=
      if bool_decide ((msg_attributes m ≫= fun a => a !! "contentType")
                      = Some CONTENT_TYPE_JSON)
      then [] else [json_warning this m] in
    (match (messageHandler j m u).1 with
     | Promise o => o
     | ThrownSync v => Rejected (VErr (json_error m v))
     end,
     (messageHandler j m u).2,
     match (messageHandler j m u).1 with
     | Promise _ => warning
     | ThrownSync v => warning ++ [json_failure_log (subscription this) m v]
     end).
Proof.
  intros Hparse.
  unfold jsonMessageHandler, callback, logger, json_warning, json_failure_log,
    json_error.
  rewrite Hparse. unfold mbind, M_bind, mret, M_ret, emit.
  case_bool_decide; cbn -[Helper.createError];
    by destruct (messageHandler j m u) as [[o|v] u1].
Qed.

(** X20.  Under [listenJson], a message whose data parses is handed to the
    handler as the parsed value together with the message, whatever its
    [contentType] attribute: an attribute that is missing or different
    from ['application/json'] only adds one warning to the log.  The
    promise the handler hands back is handed on as it is, resolved or
    rejected, with the effect of the handler; the delivery callback then
    acknowledges the message once when it resolved.  When the handler
    throws before it hands back a promise, what it threw is taken for a
    failure to parse: it is logged and wrapped into the error
    ['Failed to parse JSON from messageId <id>: ...'], which is the
    rejection handed on. *)
Theorem X20_listenJson_parses_whatever_the_content_type
    this messageHandler errorHandler m u j :
  JSON_parse (msg_data m) = inl j ->
  let handled := messageHandler j m u in
  let marked := bool_decide ((msg_attributes m ≫= fun a => a !! "contentType")
                             = Some CONTENT_TYPE_JSON) in
  let warning := if marked then [] else [json_warning this m] in
  let run := jsonMessageHandler this messageHandler m u in
  let delivered :=
    on_message (subscription this) (jsonMessageHandler this messageHandler)
      errorHandler m u in
  world_of run = handled.2
  /\ match handled.1 with
     | Promise o => result_of run = o /\ trace_of run = warning
     | ThrownSync v =>
         result_of run = Rejected (VErr (json_error m v))
         /\ trace_of run = warning ++ [json_failure_log (subscription this) m v]
     end
  /\ (forall v, handled.1 = Promise (Resolved v) ->
        world_of delivered = handled.2
        /\ trace_of delivered = trace_of run ++ [EvAck m]).
Proof.
  intros Hparse. cbv zeta.
  rewrite on_message_cases. cbv zeta.
  rewrite (jsonMessageHandler_parsed _ _ _ _ _ Hparse). cbv zeta.
  unfold result_of, world_of, trace_of. cbn [fst snd].
  split; [done|]. split.
  - by destruct (messageHandler j m u).1.
  - by intros v ->.
Qed.

End JsonFacts.

Section PublisherMore.
Context {U : Type} `{Transport U}.
Implicit Types (p : Publisher) (w : store * U).

(** X21.  [Publisher.publishMessage] hands the message to the transport,
    returns its answer and leaves the caller's objects as they are.  When
    the transport fails nothing is logged; when it answers with an id, one
    line is logged, with the id and, when the message has a [contentType]
    attribute that is not empty, that content type. *)
Theorem X21_publishMessage_logs_after_success p (data : MessageOptions) w :
  let run := publishMessage p data w in
  let m := snapshot w.1 data in
  let answer := topic_publishMessage (topic p) m w.2 in
  world_of run = (w.1, answer.2)
  /\ match answer.1 with
     | TFail e =>
         result_of run = TFail e /\ trace_of run = [EvPublish (topic p) m]
     | TOk messageId =>
         result_of run = TOk messageId
         /\ trace_of run =
              [EvPublish (topic p) m;
               EvLog LInfo
                 (match truthy (pm_attributes m ≫= fun a => a !! "contentType") with
                  | Some contentType =>
                      "Published messageId " +:+ messageId
                        +:+ " with contentType " +:+ contentType
                  | None => "Published messageId " +:+ messageId
                  end) None None]
     end.
Proof.
  cbv zeta. destruct w as [s u].
  unfold publishMessage, topic_publish, get_attributes, lift, logger,
    result_of, world_of, trace_of.
  unfold mbind, M_bind, mret, M_ret, emit. cbn [fst snd].
  destruct (topic_publishMessage _ _ u) as [[messageId|e] u1]; cbn [fst snd];
    [|done].
  unfold snapshot. cbn [pm_attributes].
  destruct (mo_attributes data) as [la|]; cbn; [|done].
  by destruct (truthy (read_attributes s la !! "contentType")).
Qed.

(** The store after [publishJson] without options: two new objects. *)
Lemma publishJson_fresh p data w :
  let s := w.1 in
  let la := fresh (dom (attributes_objs s)) in
  let l := fresh (dom (options_objs s)) in
  (world_of (publishJson p data None w)).1 =
    {| options_objs :=
         <[l := {| attributes := Some la; orderingKey := None |}]> (options_objs s);
       attributes_objs :=
         <[la := {[ "contentType" := CONTENT_TYPE_JSON ]}]> (attributes_objs s) |}
  /\ options_objs s !! l = None /\ attributes_objs s !! la = None.
Proof.
  cbv zeta. destruct w as [s u]. unfold publishJson, topic_publish, world_of.
  unfold new_attributes, new_options, get_options, set_options_attributes,
    set_attribute, modify, mbind, M_bind, mret, M_ret.
  unfold snapshot, read_options, read_attributes. cbn.
  repeat (rewrite !lookup_insert_eq; cbn).
  destruct (topic_publishMessage _ _ u) as [r u1]. cbn.
  rewrite insert_insert_eq.
  split_and!; [done|apply not_elem_of_dom, is_fresh..].
Qed.

(** X22.  [publishJson] writes to nothing but the object it is given and
    that object's attributes: every other options object and every other
    attributes object of the store is as before; called without options,
    it changes no object that existed. *)
Theorem X22_publishJson_writes_nothing_else p data options w :
  let s := w.1 in
  let s' := (world_of (publishJson p data options w)).1 in
  match options with
  | Some l =>
      (forall l', l' <> l -> options_objs s' !! l' = options_objs s !! l')
      /\ (forall la', attributes (read_options s' l) <> Some la' ->
            attributes_objs s' !! la' = attributes_objs s !! la')
  | None =>
      (forall l', is_Some (options_objs s !! l') ->
         options_objs s' !! l' = options_objs s !! l')
      /\ (forall la', is_Some (attributes_objs s !! la') ->
            attributes_objs s' !! la' = attributes_objs s !! la')
  end.
Proof.
  cbv zeta. destruct options as [l|].
  - destruct (publishJson_run p data (Some l) w)
      as (l0 & la & s' & E & Hl & Hattr & _ & _ & Hsame & Hnew & Hobjs).
    cbv zeta in *. rewrite E. unfold world_of. cbn [fst snd] in *.
    rewrite <- (Hl l eq_refl) in *. split.
    + intros l' Hne.
      destruct (attributes (read_options w.1 l0)) as [la0|] eqn:Hold.
      * destruct (Hsame l0 la0 eq_refl Hold) as [_ ->]. done.
      * destruct (Hnew l0 eq_refl Hold) as [_ ->]. by rewrite lookup_insert_ne.
    + intros la' Hne. rewrite Hattr in Hne.
      rewrite Hobjs. rewrite lookup_insert_ne; [done|]. congruence.
  - destruct (publishJson_fresh p data w) as (-> & Hl & Hla). cbn. split.
    + intros l' [x Hx]. rewrite lookup_insert_ne; [done|]. congruence.
    + intros la' [x Hx]. rewrite lookup_insert_ne; [done|]. congruence.
Qed.

(** [publishJson] on an options object, in terms of the store before. *)
Lemma publishJson_on_object p data l w :
  let s := w.1 in
  let a := <["contentType" := CONTENT_TYPE_JSON]>
             (match attributes (read_options s l) with
              | Some la0 => read_attributes s la0
              | None => ∅
              end) in
  let m := {| pm_json := Some data; pm_data := None; pm_attributes := Some a;
              pm_orderingKey := orderingKey (read_options s l) |} in
  exists la s',
    publishJson p data (Some l) w =
      ((topic_publishMessage (topic p) m w.2).1,
       (s', (topic_publishMessage (topic p) m w.2).2),
       [EvPublish (topic p) m])
    /\ attributes (read_options s' l) = Some la
    /\ orderingKey (read_options s' l) = orderingKey (read_options s l)
    /\ attributes_objs s' = <[la := a]> (attributes_objs s)
    /\ (forall la0, attributes (read_options s l) = Some la0 ->
          la = la0 /\ options_objs s' = options_objs s).
Proof.
  destruct (publishJson_run p data (Some l) w)
    as (l0 & la & s' & E & Hl & Hattr & Hkey & _ & Hsame & _ & Hobjs).
  pose proof (Hl l eq_refl) as ->. cbv zeta in *. cbn [default] in *.
  exists la, s'. split_and!; [done..|].
  intros la0 Hold. by apply (Hsame l la0).
Qed.

(** X23.  Publishing twice with the same options object changes the
    caller's objects once: the second [publishJson] leaves the store as the
    first left it, and hands the transport a message with the same
    attributes and ordering key. *)
Theorem X23_publishJson_again_changes_nothing p data data' l w :
  let first := publishJson p data (Some l) w in
  let second := publishJson p data' (Some l) (world_of first) in
  (world_of second).1 = (world_of first).1
  /\ exists m m',
       trace_of first = [EvPublish (topic p) m]
       /\ trace_of second = [EvPublish (topic p) m']
       /\ pm_attributes m' = pm_attributes m
       /\ pm_orderingKey m' = pm_orderingKey m.
Proof.
  cbv zeta.
  destruct (publishJson_on_object p data l w)
    as (la & s1 & E1 & Hattr1 & Hkey1 & Hobjs1 & _).
  cbv zeta in E1, Hobjs1. rewrite E1.
  set (a := <["contentType" := CONTENT_TYPE_JSON]> _) in *.
  set (u1 := (topic_publishMessage _ _ w.2).2).
  change (world_of (_, (s1, u1), _)) with (s1, u1).
  destruct (publishJson_on_object p data' l (s1, u1))
    as (la2 & s2 & E2 & _ & _ & Hobjs2 & Hsame).
  cbv zeta in E2, Hobjs2, Hsame. cbn [fst snd] in E2, Hobjs2, Hsame.
  destruct (Hsame la Hattr1) as [-> Hopt].
  assert (read_attributes s1 la = a) as Hread.
  { unfold read_attributes. by rewrite Hobjs1, lookup_insert_eq. }
  rewrite Hattr1, Hread in E2, Hobjs2. rewrite Hkey1 in E2.
  assert (<["contentType" := CONTENT_TYPE_JSON]> a = a) as Haa.
  { unfold a. by rewrite insert_insert_eq. }
  rewrite Haa in E2, Hobjs2.
  rewrite E2. unfold world_of, trace_of. cbn [fst snd]. split.
  - destruct s1 as [o1 a1], s2 as [o2 a2]. cbn in *. subst o2 a2.
    f_equal. rewrite Hobjs1. by rewrite insert_insert_eq.
  - eexists _, _. split_and!; reflexivity.
Qed.

End PublisherMore.

(** * The further properties, on concrete inputs *)

Lemma X3_witness :
  let action := failing (VErr (Err KRetryError "retry me" VUndefined)) in
  maxRetry (resolve_options only_RetryError) = Z.of_nat 3
  /\ result_of (retry action only_RetryError tt) = Some (Returned VUndefined)
  /\ invocations (trace_of (retry action only_RetryError tt)) = 3%nat.
Proof.
  intros action. split; [reflexivity|].
  apply (X3_RetryError_is_always_retried action only_RetryError 3 tt);
    [reflexivity|].
  intros u. eexists. split; reflexivity.
Defined.

Lemma X4_witness :
  let script := [Rejected (VErr boom); Resolved (VStr "val"); Resolved (VStr "late")] in
  (scripted (after scripted 1 script)).1 = Resolved (VStr "val")
  /\ result_of (retry scripted no_options script) = Some (Returned (VStr "val"))
  /\ world_of (retry scripted no_options script) = [Resolved (VStr "late")]
  /\ invocations (trace_of (retry scripted no_options script)) = 2%nat.
Proof.
  intros script. split; [reflexivity|].
  apply (X4_retry_returns_first_success scripted no_options 1 script (VStr "val"));
    try reflexivity.
  - intros f Hf. discriminate Hf.
  - intros i Hi. assert (i = 0%nat) as -> by lia. eexists. reflexivity.
Defined.

Lemma X5_witness :
  let script := [Rejected (VErr (Err KRetryError "retry me" VUndefined));
                 Rejected (VErr boom)] in
  result_of (retry scripted only_RetryError script) = Some (Thrown (VErr boom))
  /\ retryOnAllErrors (resolve_options only_RetryError) = false
  /\ instanceof_RetryError (VErr boom) = false.
Proof.
  intros script. split; [reflexivity|].
  destruct (X5_retry_raises_only_what_the_action_gave scripted only_RetryError
              script (VErr boom) eq_refl) as (Hflag & Hkind & _).
  split; [exact Hflag|exact Hkind].
Defined.

Lemma X6_witness :
  let script := [Resolved VUndefined; Resolved (VStr "val")] in
  result_of (retry scripted no_options script) = Some (Returned (VStr "val"))
  /\ last_invocation (trace_of (retry scripted no_options script))
     = Some (Resolved (VStr "val")).
Proof.
  intros script. split; [reflexivity|].
  apply (X6_retry_returns_the_last_result scripted no_options script (VStr "val")
           eq_refl).
Defined.

Lemma X7_witness :
  let options := {| p_waitFor := None; p_maxRetry := Some 0;
                    p_retryOnUndefined := None; p_retryOnAllErrors := None;
                    p_shouldRetry := None |} in
  maxRetry (resolve_options options) <= 0
  /\ result_of (retry (failing (VErr boom)) options tt) = Some (Returned VUndefined)
  /\ invocations (trace_of (retry (failing (VErr boom)) options tt)) = 0%nat.
Proof.
  intros options.
  assert (maxRetry (resolve_options options) <= 0) as Hle by (cbn; lia).
  split; [exact Hle|].
  destruct (X7_retry_without_attempts (failing (VErr boom)) options tt Hle)
    as (Hr & _ & Hi & _).
  split; [exact Hr|exact Hi].
Defined.

Lemma X9_witness :
  let run := checkIfHostResolves SimMore.broken_resolver (inl "example.com") tt in
  result_of run = Some (Returned (VBool false))
  /\ lookups (trace_of run) = 3%nat.
Proof.
  intros run.
  destruct (X9_checkIfHostResolves_never_raises SimMore.broken_resolver
              (inl "example.com") tt) as (_ & _ & _ & _ & Hall).
  apply Hall. intros w. eexists _, _. split; [reflexivity|discriminate].
Defined.

Lemma X10_witness :
  let headers : gmap string string := {[ "Authorization" := "Bearer mine" ]} in
  let h := headersToUse (Some "env-token") (Some headers) in
  "Accept" <> "User-Agent" /\ "Accept" <> "Authorization"
  /\ h !! "Authorization" = Some "Bearer mine"
  /\ h !! "Accept" = None.
Proof.
  intros headers h. split; [discriminate|]. split; [discriminate|].
  destruct (X10_fetcher_request_headers SimMore.not_found (Some "env-token")
              (inl "https://example.com") (Some headers) tt)
    as (_ & _ & Hauth & Hother).
  split; [exact Hauth|]. unfold h.
  rewrite (Hother "Accept"); [vm_compute; reflexivity|discriminate|discriminate].
Defined.

Lemma X11_witness :
  let run := fetcher SimMore.not_found None (inl "https://example.com") None tt in
  exists e, result_of run = Thrown (VErr e)
    /\ err_message e = "Fetch failed: Fetch error status 404: Not Found".
Proof.
  intros run.
  destruct (X11_fetcher_result SimMore.not_found None (inl "https://example.com")
              None tt) as (_ & _ & _ & _ & Hstatus & _).
  apply (Hstatus 404 "Not Found"). reflexivity.
Defined.

Lemma X12_witness :
  let given := {| co_retry := Some publishRetrySetting;
                  co_other := {[ "timeout" := "30" ]} |} in
  is_Some (co_retry given) /\ generateCallOptions (Some given) = given.
Proof.
  intros given.
  assert (is_Some (co_retry given)) as Hsome by (by eexists).
  split; [exact Hsome|].
  destruct (X12_generateCallOptions_sets_retry_once (Some given))
    as (_ & _ & Hkept & _).
  apply Hkept. exact Hsome.
Defined.

Lemma X14_witness :
  let mine := {| retryCodes := [14]; backoffSettings := backoffSettings publishRetrySetting |} in
  let options := Some {| gaxOpts := Some {| co_retry := Some mine; co_other := ∅ |};
                         po_other := ∅ |} in
  (options ≫= gaxOpts) ≫= co_retry = Some mine
  /\ co_retry (generateCallOptions (options ≫= gaxOpts)) = Some mine.
Proof.
  intros mine options. split; [reflexivity|].
  destruct (X14_createTopic_probes_then_creates "orders" options Sim.empty_broker)
    as (_ & Hkept & _).
  apply Hkept. reflexivity.
Defined.

Lemma X15_witness :
  let policy := {| minimumBackoff := Some {| seconds := 5 |}; maximumBackoff := None |} in
  let options := Some {| retryPolicy := Some policy; cso_gaxOpts := None; cso_other := ∅ |} in
  options ≫= retryPolicy = Some policy
  /\ retryPolicy (generateCreateSubscriptionOptions options) = Some policy
  /\ retryPolicy (generateCreateSubscriptionOptions None) = Some default_retryPolicy.
Proof.
  intros policy options. split; [reflexivity|].
  destruct (X15_createSubscription_probes_then_creates Sim.orders "orders-worker"
              options None Sim.live_broker) as (_ & Hkept & _).
  destruct (X15_createSubscription_probes_then_creates Sim.orders "orders-worker"
              None None Sim.live_broker) as (_ & _ & Hdefault & _).
  split; [apply Hkept; reflexivity|apply Hdefault; reflexivity].
Defined.

Lemma X17_witness :
  let this := new_Subscriber Sim.orders_worker in
  let run := listen (user_handler Sim.raising_handler) None this Sim.live_broker in
  subscriberClosed this = false
  /\ (result_of run).2 = this.
Proof.
  intros this run. split; [reflexivity|].
  apply (X17_listen_on_open_subscriber (user_handler Sim.raising_handler) None
           this Sim.live_broker eq_refl).
Defined.

Lemma X18_witness :
  let this := new_Subscriber Sim.orders_worker in
  let run := @close unit SimMore.offline this tt in
  subscriberClosed this = false
  /\ result_of run = (Thrown SimMore.unreachable, this)
  /\ exists rest,
       trace_of (@listen unit SimMore.offline (user_handler (fun m u => (Resolved VUndefined, u)))
                   None (result_of run).2 (world_of run))
         = EvSubExists Sim.orders_worker :: rest.
Proof.
  intros this run. split; [reflexivity|].
  destruct (@X18_close_marks_closed_only_on_success unit SimMore.offline this tt)
    as (_ & _ & Hfail & Hlisten).
  split; [exact Hfail|]. apply Hlisten. reflexivity.
Defined.

Lemma X20_witness :
  let this := new_Subscriber Sim.orders_worker in
  JSON_parse (msg_data Sim.good_message) = inl (JNum 1)
  /\ result_of (jsonMessageHandler this Sim.json_handler Sim.good_message Sim.live_broker)
     = Resolved VUndefined
  /\ trace_of (jsonMessageHandler this Sim.json_handler Sim.good_message Sim.live_broker)
     = []
  /\ result_of (jsonMessageHandler this Sim.throwing_json_handler Sim.good_message
                  Sim.live_broker)
     = Rejected (VErr (Err KError "Failed to parse JSON from messageId 8: not an order"
                         VUndefined)).
Proof.
  intros this.
  assert (JSON_parse (msg_data Sim.good_message) = inl (JNum 1)) as Hparse
    by reflexivity.
  split; [exact Hparse|].
  destruct (X20_listenJson_parses_whatever_the_content_type this Sim.json_handler
              None Sim.good_message Sim.live_broker (JNum 1) Hparse)
    as (_ & [Hr Ht] & _).
  destruct (X20_listenJson_parses_whatever_the_content_type this
              Sim.throwing_json_handler None Sim.good_message Sim.live_broker
              (JNum 1) Hparse)
    as (_ & [Hthrown _] & _).
  split; [exact Hr|]. split; [exact Ht|]. exact Hthrown.
Defined.

Lemma X22_witness :
  let p := {| topic := Sim.orders |} in
  let other := {| attributes := None; orderingKey := Some "k" |} in
  let s := {| options_objs := {[ 1%positive := {| attributes := None; orderingKey := None |};
                                 2%positive := other ]};
              attributes_objs := ∅ |} in
  let s' := (world_of (publishJson p (JNum 1) (Some 1%positive) (s, Sim.live_broker))).1 in
  2%positive <> 1%positive
  /\ options_objs s' !! 2%positive = Some other.
Proof.
  intros p other s s'.
  assert (2%positive <> 1%positive) as Hne by discriminate.
  split; [exact Hne|].
  destruct (X22_publishJson_writes_nothing_else p (JNum 1) (Some 1%positive)
              (s, Sim.live_broker)) as [Hframe _].
  etrans; [exact (Hframe 2%positive Hne)|]. vm_compute. reflexivity.
Defined.
